(** * CrimeAPP: the fetch-and-render lifecycle of the crime feed

    A shallow embedding of [frontend/src/App.js] and
    [frontend/src/components/CrimeCard.js]: the JavaScript values that the
    decoded payload is made of, the React elements the two components return,
    the promise chain started by the mount effect, and the hook state of the
    [App] component.

    Numbers of the model are the integer-valued ones (identifiers, lengths,
    status codes) plus NaN; [%] is the remainder whose sign follows the
    dividend.  *)

Set Warnings "-register-all".
From stdpp Require Import gmap strings list pretty.
From Stdlib Require Import ZArith String Ascii.

Open Scope Z_scope.

(** ** JavaScript values *)

Module JS.

Inductive number :=
| NaN
| Int (z : Z).

Inductive value :=
| VUndefined
| VNull
| VBool (b : bool)
| VNum (n : number)
| VStr (s : string)
| VArr (items : list value)
| VObj (fields : gmap string value).

Inductive exn :=
| Error (message : string)
| TypeError (message : string)
| SyntaxError (message : string).

Definition message (e : exn) : string :=
  match e with
  | Error m | TypeError m | SyntaxError m => m
  end.

(** What the host supplies and the repository only calls: the conversion of
    a string to a number (used by [%] on a non-numeric operand) and
    [new Date(v).toLocaleString()], which goes by the locale and the time
    zone of the host at the time of the call; [v] is taken not to be an
    object that shadows [toString]. *)
Class Host := {
  string_to_number : string → number;
  date_to_locale_string : value → string
}.

(** ToBoolean. *)
Definition truthy (v : value) : bool :=
  match v with
  | VUndefined | VNull => false
  | VBool b => b
  | VNum NaN => false
  | VNum (Int z) => negb (z =? 0)
  | VStr s => negb (String.eqb s "")
  | VArr _ | VObj _ => true
  end.

(** ToString; an array joins its elements with commas, [null] and
    [undefined] elements giving the empty string.  Objects are taken not
    to shadow [toString] (with a [toString] field of its own an object
    cannot be converted and the conversion throws), and integers to be
    below 10^21, from where on JavaScript writes an exponent. *)
Fixpoint to_string (v : value) : string :=
  match v with
  | VUndefined => "undefined"
  | VNull => "null"
  | VBool true => "true"
  | VBool false => "false"
  | VNum NaN => "NaN"
  | VNum (Int z) => pretty z
  | VStr s => s
  | VArr items =>
      String.concat ","
        ((fix each (l : list value) : list string :=
            match l with
            | [] => []
            | x :: r =>
                match x with
                | VUndefined | VNull => ""
                | _ => to_string x
                end :: each r
            end) items)
  | VObj _ => "[object Object]"
  end.

(** ToNumber, for objects that do not shadow [toString] (see
    [to_string]). *)
Definition to_number `{Host} (v : value) : number :=
  match v with
  | VUndefined => NaN
  | VNull => Int 0
  | VBool b => Int (if b then 1 else 0)
  | VNum n => n
  | VStr s => string_to_number s
  | VArr _ => string_to_number (to_string v)
  | VObj _ => NaN
  end.

(** [a % m] for a constant non-zero [m]. *)
Definition remainder (a : number) (m : Z) : number :=
  match a with
  | NaN => NaN
  | Int z => Int (Z.rem z m)
  end.

(** [a + k] on numbers. *)
Definition add (a : number) (k : Z) : number :=
  match a with
  | NaN => NaN
  | Int z => Int (z + k)
  end.

(** [v.name] for a property name that no prototype defines ([error],
    [data], [OBJECTID], ...): reading from [null] or [undefined] throws,
    an object answers with its own field, anything else with [undefined]. *)
Definition get_field (v : value) (name : string) : exn + value :=
  match v with
  | VUndefined =>
      inl (TypeError ("Cannot read properties of undefined (reading '" +:+ name +:+ "')"))
  | VNull =>
      inl (TypeError ("Cannot read properties of null (reading '" +:+ name +:+ "')"))
  | VObj fields => inr (default VUndefined (fields !! name))
  | _ => inr VUndefined
  end.

(** [v.length]. *)
Definition get_length (v : value) : exn + value :=
  match v with
  | VArr items => inr (VNum (Int (Z.of_nat (List.length items))))
  | VStr s => inr (VNum (Int (Z.of_nat (String.length s))))
  | _ => get_field v "length"
  end.

(** [v === 0]. *)
Definition is_zero (v : value) : bool :=
  match v with
  | VNum (Int 0) => true
  | _ => false
  end.

(** [s.includes(pat)]. *)
Definition includes (s pat : string) : bool :=
  match String.index 0 pat s with
  | Some _ => true
  | None => false
  end.

(** The sequencing of computations that may throw. *)
#[global] Instance exn_ret : MRet (sum exn) := λ A x, inr x.
#[global] Instance exn_bind : MBind (sum exn) := λ A B f x,
  match x with
  | inl e => inl e
  | inr a => f a
  end.

(** [items.map(f)] where [f] may throw: elements are visited first to
    last and the first exception ends the traversal. *)
Fixpoint map_throwing {A B} (f : A → exn + B) (items : list A) : exn + list B :=
  match items with
  | [] => inr []
  | x :: rest =>
      y ← f x;
      ys ← map_throwing f rest;
      mret (y :: ys)
  end.

End JS.

Import JS.

(** ** React elements *)

(** What a component returns: host elements with their class name and
    children, literal text, [{expression}] children holding the value of
    the expression, the icons of [react-icons/fa], and [CrimeCard]
    elements with their key and [crime] prop. *)
Inductive node :=
| Text (s : string)
| Expr (v : value)
| Tag (name : string) (className : option string) (children : list node)
| Icon (name : string)
| CrimeCardElement (key : option string) (crime : value).

(** The key of an element: absent when the [key] attribute evaluates to
    [undefined], its string conversion otherwise. *)
Definition react_key (v : value) : option string :=
  match v with
  | VUndefined => None
  | _ => Some (to_string v)
  end.

(** The child at a path of child indices. *)
Fixpoint descend (path : list nat) (n : node) : option node :=
  match path with
  | [] => Some n
  | i :: rest =>
      match n with
      | Tag _ _ children => c ← children !! i; descend rest c
      | _ => None
      end
  end.

(** ** components/CrimeCard.js *)

(** [a && b]: the left operand when it is falsy, the right one otherwise. *)
Definition and_then (a : value) (b : node) : node :=
  if truthy a then b else Expr a.

Definition CrimeCard `{Host} (crime : value) : exn + node :=
  OBJECTID ← get_field crime "OBJECTID";
  Incident_Type ← get_field crime "Incident_Type";
  Occurred_Datetime ← get_field crime "Occurred_Datetime";
  Block_Address ← get_field crime "Block_Address";
  Case_Number ← get_field crime "Case_Number";
  DESCRIPTION ← get_field crime "DESCRIPTION";
  mret
    (Tag "div" (Some "crime-card")
       [ Tag "div" (Some "vote-buttons")
           [ Tag "button" (Some "upvote") [Icon "FaArrowUp"];
             Tag "span" None [Expr (VNum (remainder (to_number OBJECTID) 100))];
             Text " " ];
         Tag "div" (Some "crime-content")
           [ Tag "h3" None [Expr Incident_Type];
             Tag "p" (Some "crime-meta")
               [ Tag "span" None
                   [ Icon "FaClock"; Text " ";
                     Expr (VStr (date_to_locale_string Occurred_Datetime)) ];
                 Tag "span" None
                   [ Icon "FaMapMarkerAlt"; Text " "; Expr Block_Address ] ];
             Tag "div" (Some "crime-description")
               [ Tag "p" None [Text "Case #"; Expr Case_Number];
                 and_then DESCRIPTION (Tag "p" None [Expr DESCRIPTION]) ];
             Tag "div" (Some "crime-footer")
               [ Tag "button" (Some "comments-btn")
                   [ Icon "FaComment"; Text " Discuss (";
                     Expr (VNum (add (remainder (to_number OBJECTID) 5) 1));
                     Text ")" ] ] ] ]).

(** Where the card shows its parts. *)
Definition upvote_counter (card : node) : option node := descend [0; 1; 0]%nat card.
Definition comment_counter (card : node) : option node := descend [1; 3; 0; 2]%nat card.
Definition heading (card : node) : option node := descend [1; 0; 0]%nat card.
Definition timestamp (card : node) : option node := descend [1; 1; 0; 2]%nat card.
Definition location (card : node) : option node := descend [1; 1; 1; 2]%nat card.
Definition case_line (card : node) : option node := descend [1; 2; 0]%nat card.
Definition description_slot (card : node) : option node := descend [1; 2; 1]%nat card.

(** ** App.js: the view *)

Definition loading_message : node := Tag "p" None [Text "Loading crimes..."].
Definition empty_message : node := Tag "p" None [Text "No crimes found or API error."].

(** [crimes.map(f)]: only an array has a [map] method; on any other value
    of the model the call throws. *)
Definition array_map {B} (f : value → exn + B) (v : value) : exn + list B :=
  match v with
  | VArr items => map_throwing f items
  | _ => inl (TypeError "crimes.map is not a function")
  end.

(** [crime => <CrimeCard key={crime.OBJECTID} crime={crime} />] *)
Definition card_of (crime : value) : exn + node :=
  OBJECTID ← get_field crime "OBJECTID";
  mret (CrimeCardElement (react_key OBJECTID) crime).

(** The children of [<main className="crime-feed">]. *)
Definition feed (crimes : value) (loading : bool) : exn + list node :=
  if loading then mret [loading_message]
  else
    len ← get_length crimes;
    if is_zero len then mret [empty_message]
    else array_map card_of crimes.

Definition page (children : list node) : node :=
  Tag "div" (Some "App")
    [ Tag "header" (Some "header")
        [ Tag "h1" None [Text "Berkeley Crime Feed"];
          Tag "p" None [Text "Community-reported safety alerts"] ];
      Tag "main" (Some "crime-feed") children ].

(** The element returned by [App] for given state cells. *)
Definition App_view (crimes : value) (loading : bool) : exn + node :=
  children ← feed crimes loading;
  mret (page children).

(** The values React takes as a child: every value but a plain object;
    an array is taken when its items are. *)
Fixpoint valid_child (v : value) : bool :=
  match v with
  | VObj _ => false
  | VArr items => forallb valid_child items
  | _ => true
  end.

(** The error React throws on a child that is a plain object; its
    message goes on to list the keys found. *)
Definition invalid_child : exn :=
  Error "Objects are not valid as a React child".

(** React going through the [{expression}] children of an element
    tree. *)
Fixpoint check_children (n : node) : exn + node :=
  match n with
  | Expr v => if valid_child v then inr n else inl invalid_child
  | Tag name cls children =>
      cs ← map_throwing check_children children;
      mret (Tag name cls cs)
  | _ => inr n
  end.

(** Rendering a tree as React does: every [CrimeCard] element is replaced
    by what the component returns for it, and every [{expression}] child
    has to be a value React takes. *)
Fixpoint expand `{Host} (n : node) : exn + node :=
  match n with
  | Tag name cls children =>
      cs ← map_throwing expand children;
      mret (Tag name cls cs)
  | CrimeCardElement _ crime =>
      card ← CrimeCard crime;
      check_children card
  | Expr v => if valid_child v then inr n else inl invalid_child
  | _ => mret n
  end.

(** ** App.js: state, effect and promise chain *)

(** The calls with an effect outside the component function, in the order
    in which they happen. *)
Inductive effect :=
| Fetch (url : string)
| SetCrimes (v : value)
| SetLoading (b : bool)
| ConsoleError (e : exn).

(** The two [useState] cells and the journal of effects. *)
Record store := {
  crimes : value;
  loading : bool;
  journal : list effect
}.

(** A callback: it reads and writes the store and may throw. *)
Definition Act (A : Type) : Type := store → (exn + A) * store.

#[global] Instance Act_ret : MRet Act := λ A x s, (inr x, s).
#[global] Instance Act_bind : MBind Act := λ A B f m s,
  match m s with
  | (inl e, s') => (inl e, s')
  | (inr a, s') => f a s'
  end.

Definition throw {A} (e : exn) : Act A := λ s, (inl e, s).
Definition lift {A} (r : exn + A) : Act A := λ s, (r, s).

Definition record_effect (ef : effect) (s : store) : store :=
  {| crimes := crimes s; loading := loading s; journal := journal s ++ [ef] |}.

Definition setCrimes (v : value) : Act unit := λ s,
  (inr (), {| crimes := v; loading := loading s; journal := journal s ++ [SetCrimes v] |}).

Definition setLoading (b : bool) : Act unit := λ s,
  (inr (), {| crimes := crimes s; loading := b; journal := journal s ++ [SetLoading b] |}).

Definition console_error (e : exn) : Act unit := λ s,
  (inr (), record_effect (ConsoleError e) s).

(** What [fetch] resolves to: a status and a body that decodes as JSON to
    a value, or does not. *)
Record response := {
  status : Z;
  body : option value
}.

Definition ok (res : response) : bool :=
  (200 <=? status res) && (status res <=? 299).

(** [res.json()]: the settlement of the promise it returns. *)
Definition json (res : response) : exn + value :=
  match body res with
  | Some v => inr v
  | None => inl (SyntaxError "Unexpected token in JSON")
  end.

(** [res => { if (!res.ok) throw new Error(`HTTP ${res.status}`); return res.json(); }]
    The result is the promise that the callback returns, given by its
    settlement. *)
Definition on_response (res : response) : exn + (exn + value) :=
  if negb (ok res) then inl (Error ("HTTP " +:+ pretty (status res)))
  else mret (json res).

(** [json => { if (json.error) throw new Error(json.error); setCrimes(json.data); }] *)
Definition on_json (payload : value) : Act unit :=
  err ← lift (get_field payload "error");
  if truthy err then throw (Error (to_string err))
  else
    data ← lift (get_field payload "data");
    setCrimes data.

(** [err => { console.error(err); setCrimes([]); }] *)
Definition on_error (err : exn) : Act unit :=
  _ ← console_error err;
  setCrimes (VArr []).

(** [() => setLoading(false)] *)
Definition on_finally : Act unit := setLoading false.

(** The chain [fetch(..).then(on_response).then(on_json).catch(on_error)
    .finally(on_finally)], by the reaction that is next.  Reactions that
    only pass a settlement on to the next promise of the chain are not
    steps of their own. *)
Inductive phase :=
| AwaitResponse                      (* the request is in flight *)
| AwaitBody (p : exn + value)        (* [res.json()] is pending and will settle as [p] *)
| AfterThen (r : exn + unit)         (* the second [then] has settled; [catch] is next *)
| AfterCatch (r : exn + unit)        (* [catch] has settled; [finally] is next *)
| Settled (r : exn + unit).          (* [finally] has run *)

(** [Object.is] on the values a dependency array can hold.  Arrays and
    objects are compared by identity, which values here do not carry: two
    of them are taken to differ, so that an effect is re-run rather than
    skipped. *)
Definition Object_is (a b : value) : bool :=
  match a, b with
  | VUndefined, VUndefined | VNull, VNull => true
  | VBool x, VBool y => Bool.eqb x y
  | VNum NaN, VNum NaN => true
  | VNum (Int x), VNum (Int y) => x =? y
  | VStr x, VStr y => String.eqb x y
  | _, _ => false
  end.

(** React's comparison of the dependencies of two renders. *)
Fixpoint same_deps (prev next : list value) : bool :=
  match prev, next with
  | [], [] => true
  | a :: prev', b :: next' => Object_is a b && same_deps prev' next'
  | _, _ => false
  end.

(** [useEffect(f, deps)] runs [f] after the first render and after a
    render whose [deps] differ from those of the render before. *)
Definition effect_due (remembered : option (list value)) (deps : list value) : bool :=
  match remembered with
  | None => true
  | Some prev => negb (same_deps prev deps)
  end.

(** A mounted [App]: its state cells, the dependencies remembered by its
    [useEffect], one promise chain per request issued, and the elements
    returned by its renders so far (a render that throws leaves the
    exception). *)
Record instance := {
  cells : store;
  remembered : option (list value);
  chains : list phase;
  frames : list (exn + node)
}.

(** Before the first render: [useState([])], [useState(true)]. *)
Definition unmounted : instance :=
  {| cells := {| crimes := VArr []; loading := true; journal := [] |};
     remembered := None;
     chains := [];
     frames := [] |}.

(** The body of the effect: [fetch('/api/crimes')] and the chain hung on
    its promise. *)
Definition run_effect (c : store * list phase) : store * list phase :=
  (record_effect (Fetch "/api/crimes") c.1, c.2 ++ [AwaitResponse]).

(** One call of [App]: the element is computed from the cells; when the
    render went through, the effect runs if its dependencies [[]] call
    for it.  A frame that is an exception is a render that threw.  The
    component is taken as React runs it on its own: [React.StrictMode],
    in which [index.js] wraps it, leaves its children as they are in a
    production build. *)
Definition render (s : instance) : instance :=
  let view := App_view (crimes (cells s)) (loading (cells s)) in
  match view with
  | inl _ =>
      {| cells := cells s; remembered := remembered s; chains := chains s;
         frames := frames s ++ [view] |}
  | inr _ =>
      let c := if effect_due (remembered s) [] then run_effect (cells s, chains s)
               else (cells s, chains s) in
      {| cells := c.1; remembered := Some []; chains := c.2;
         frames := frames s ++ [view] |}
  end.

(** The next reaction of a chain.  [answer] is what the network does with
    the request: it fails, or it delivers a response. *)
Definition react (answer : exn + response) (ph : phase) (c : store) : phase * store :=
  match ph with
  | AwaitResponse =>
      match answer with
      | inl e => (AfterThen (inl e), c)
      | inr res =>
          match on_response res with
          | inl e => (AfterThen (inl e), c)
          | inr p => (AwaitBody p, c)
          end
      end
  | AwaitBody (inl e) => (AfterThen (inl e), c)
  | AwaitBody (inr payload) =>
      let (r, c') := on_json payload c in (AfterThen r, c')
  | AfterThen (inr _) => (AfterCatch (inr ()), c)
  | AfterThen (inl e) =>
      let (r, c') := on_error e c in (AfterCatch r, c')
  | AfterCatch r =>
      let (r', c') := on_finally c in
      (Settled (match r' with inl e => inl e | inr _ => r end), c')
  | Settled r => (Settled r, c)
  end.

(** What can happen to a mounted component: React calls it again, or the
    next reaction of the chain of request [i] runs. *)
Inductive event :=
| Render
| Tick (i : nat).

(** [network i] is the fate of request [i]. *)
Definition tick (network : nat → exn + response) (i : nat)
    (c : store * list phase) : store * list phase :=
  match c.2 !! i with
  | Some ph =>
      let (ph', c') := react (network i) ph c.1 in
      (c', <[i := ph']> c.2)
  | None => c
  end.

Definition step (network : nat → exn + response) (ev : event) (s : instance) : instance :=
  match ev with
  | Render => render s
  | Tick i =>
      let c := tick network i (cells s, chains s) in
      {| cells := c.1; remembered := remembered s; chains := c.2;
         frames := frames s |}
  end.

Definition run (network : nat → exn + response) (evs : list event) (s : instance) : instance :=
  foldl (λ s ev, step network ev s) s evs.

(** Mount, then the reactions of the chain of request 0 until it has
    settled. *)
Definition to_settlement : list event :=
  [Render; Tick 0; Tick 0; Tick 0; Tick 0]%nat.

(** The life of the component when request 0 is answered by [answer]:
    mount, the reactions of the chain one after the other, and a render
    after the last state change. *)
Definition lifecycle (answer : exn + response) : instance :=
  run (λ _, answer) (to_settlement ++ [Render]) unmounted.

Definition settled (s : instance) : bool :=
  match chains s with
  | [Settled _] => true
  | _ => false
  end.

(** The journal entries of a given kind. *)
Definition is_fetch (ef : effect) : bool :=
  match ef with Fetch _ => true | _ => false end.
Definition is_set_loading (ef : effect) : bool :=
  match ef with SetLoading _ => true | _ => false end.
Definition is_set_crimes (ef : effect) : bool :=
  match ef with SetCrimes _ => true | _ => false end.
Definition logged (s : store) : list exn :=
  omap (λ ef, match ef with ConsoleError e => Some e | _ => None end) (journal s).

(** A host for the examples. *)
Definition sample_host : Host :=
  {| string_to_number := λ _, NaN;
     date_to_locale_string := λ _, "1/1/2024, 10:00:00 AM" |}.

Definition obj (fields : list (string * value)) : value :=
  VObj (list_to_map fields).

(** ** Reading the chain as a whole *)

(** What the chain makes of an answer: the exception that reaches
    [catch], or the value handed to [setCrimes] by the second [then]. *)
Definition verdict (answer : exn + response) : exn + value :=
  res ← answer;
  p ← on_response res;
  payload ← p;
  err ← get_field payload "error";
  if truthy err then inl (Error (to_string err))
  else get_field payload "data".

(** The store left by a callback. *)
Definition exec (m : Act unit) (c : store) : store := (m c).2.

(** The store once [fetch] has been called. *)
Definition requested : store :=
  record_effect (Fetch "/api/crimes") (cells unmounted).

(** The store between the success or failure branch and [finally]. *)
Definition resolved (answer : exn + response) : store :=
  match verdict answer with
  | inr data => exec (setCrimes data) requested
  | inl e => exec (on_error e) requested
  end.

(** The store once [finally] has run. *)
Definition final (answer : exn + response) : store :=
  exec on_finally (resolved answer).

(** The stores and phases a chain goes through when the network answers
    with [answer]. *)
Inductive stage (answer : exn + response) : store → phase → Prop :=
| stage_await :
    stage answer requested AwaitResponse
| stage_body res p :
    answer = inr res → on_response res = inr p →
    stage answer requested (AwaitBody p)
| stage_thrown e :
    verdict answer = inl e →
    stage answer requested (AfterThen (inl e))
| stage_assigned data :
    verdict answer = inr data →
    stage answer (resolved answer) (AfterThen (inr ()))
| stage_resolved :
    stage answer (resolved answer) (AfterCatch (inr ()))
| stage_settled :
    stage answer (final answer) (Settled (inr ())).

(** The frame of a render while loading, and the frame of a render of a
    store. *)
Definition loading_frame : exn + node := inr (page [loading_message]).
Definition frame_of (c : store) : exn + node := App_view (crimes c) (loading c).

(** The instances that schedules of renders and reactions lead to, when
    request 0 is answered with [answer]. *)
Inductive reached (answer : exn + response) : instance → Prop :=
| reached_unmounted :
    reached answer unmounted
| reached_pending c ph n :
    stage answer c ph →
    (∀ r, ph ≠ Settled r) →
    reached answer
      {| cells := c; remembered := Some []; chains := [ph];
         frames := replicate (S n) loading_frame |}
| reached_settled n m :
    reached answer
      {| cells := final answer; remembered := Some []; chains := [Settled (inr ())];
         frames := replicate (S n) loading_frame ++ replicate m (frame_of (final answer)) |}.

(** The three display modes, read off the children of the feed. *)
Inductive display :=
| ShowsLoading
| ShowsEmpty
| ShowsCards (keys : list (option string)).

Definition card_key (n : node) : option (option string) :=
  match n with
  | CrimeCardElement key _ => Some key
  | _ => None
  end.

Definition display_of (children : list node) : option display :=
  match children with
  | [Tag "p" None [Text msg]] =>
      if String.eqb msg "Loading crimes..." then Some ShowsLoading
      else if String.eqb msg "No crimes found or API error." then Some ShowsEmpty
      else None
  | [] => None
  | _ => ShowsCards <$> mapM card_key children
  end.

(** The identifier of a record and the element [App] makes for it. *)
Definition identifier (record : value) : value :=
  match get_field record "OBJECTID" with
  | inr v => v
  | inl _ => VUndefined
  end.

Definition item_view (record : value) : node :=
  CrimeCardElement (react_key (identifier record)) record.

(** The values whose properties can be read: all but [null] and
    [undefined]. *)
Definition readable (v : value) : bool :=
  match v with
  | VUndefined | VNull => false
  | _ => true
  end.

(** ** The vocabulary of the properties *)

(** The failure outcomes and the exception each one sends to [catch]:
    the request itself fails; the status is not a 2xx one; the body is
    not JSON; the decoded body is [null], so that reading its [error]
    property throws; the [error] property of the payload is truthy. *)
Inductive failure : exn + response → exn → Prop :=
| network_failure e :
    failure (inl e) e
| transport_error res :
    ok res = false →
    failure (inr res) (Error ("HTTP " +:+ pretty (status res)))
| decode_error res e :
    ok res = true → json res = inl e →
    failure (inr res) e
| unreadable_payload res payload e :
    ok res = true → body res = Some payload →
    get_field payload "error" = inl e →
    failure (inr res) e
| application_error res payload err :
    ok res = true → body res = Some payload →
    get_field payload "error" = inr err → truthy err = true →
    failure (inr res) (Error (to_string err)).

(** A successful response with zero records. *)
Definition empty_success : exn + response :=
  inr {| status := 200; body := Some (obj [("data", VArr [])]) |}.

(** The frame of a store with every [CrimeCard] rendered. *)
Definition paint `{Host} (c : store) : exn + node :=
  n ← frame_of c; expand n.

Definition is_paragraph (n : node) : bool :=
  match n with
  | Tag name _ _ => String.eqb name "p"
  | _ => false
  end.

(** The description of a record is present and non-empty. *)
Definition has_description (record : value) : bool :=
  match record with
  | VObj fields =>
      match fields !! "DESCRIPTION" with
      | Some (VStr s) => negb (String.eqb s "")
      | _ => false
      end
  | _ => false
  end.

(** The description of a record is absent or a string. *)
Definition description_is_text (record : value) : bool :=
  match record with
  | VObj fields =>
      match fields !! "DESCRIPTION" with
      | None | Some (VStr _) => true
      | _ => false
      end
  | _ => false
  end.

(** ** Scenarios *)

Definition theft : value :=
  obj [ ("OBJECTID", VNum (Int 1));
        ("Incident_Type", VStr "Theft");
        ("Occurred_Datetime", VStr "2024-01-01T10:00:00Z");
        ("Block_Address", VStr "Block of Shattuck Ave");
        ("Case_Number", VStr "24-0001") ].

Definition burglary : value :=
  obj [ ("OBJECTID", VNum (Int 207));
        ("Incident_Type", VStr "Burglary");
        ("Occurred_Datetime", VStr "2024-01-02T23:15:00Z");
        ("Block_Address", VStr "Block of Telegraph Ave");
        ("Case_Number", VStr "24-0002");
        ("DESCRIPTION", VStr "Forced entry through a rear window") ].

Definition respond (st : Z) (payload : value) : response :=
  {| status := st; body := Some payload |}.

(** A failure outcome when every payload that carries an [error] field
    counts as an application-level error: a status that is not a 2xx
    one, a payload with such a field, or a body that is not JSON. *)
Definition failure_by_presence (answer : exn + response) : Prop :=
  ∃ res, answer = inr res
    ∧ (ok res = false
       ∨ (∃ fields e, body res = Some (VObj fields) ∧ fields !! "error" = Some e)
       ∨ body res = None).

(** Status 200, an [error] field that is the empty string, one record. *)
Definition blank_error : response :=
  respond 200 (obj [("error", VStr ""); ("data", VArr [theft])]).

(** The body of scenario C, [{"error":"db down"}], sent with status
    [st]; the scenario has status 500. *)
Definition db_down (st : Z) : response :=
  respond st (obj [("error", VStr "db down")]).

(** The value of [crime.DESCRIPTION] for a record. *)
Definition description (record : value) : value :=
  match get_field record "DESCRIPTION" with
  | inr v => v
  | inl _ => VUndefined
  end.

(** ** components/CrimeFeed.js *)

(** [CrimeFeed({ crimes })]: the container with one [CrimeCard] element
    per item of [crimes].  Reading [crimes.map] throws on [null] and
    [undefined]; on any other value that is no array the call does. *)
Definition CrimeFeed (crimes : value) : exn + node :=
  _ ← get_field crimes "map";
  children ← array_map card_of crimes;
  mret (Tag "div" (Some "crime-feed") children).

(** ** static/js/main.js: the vote buttons *)

(** The white space that [parseInt] skips.  A string of the model is a
    sequence of code units below 256. *)
Definition is_white_space (c : Ascii.ascii) : bool :=
  let n := Ascii.N_of_ascii c in
  ((9 <=? n) && (n <=? 13) || (n =? 32) || (n =? 160))%N.

(** The value of a digit or of a letter used as a digit. *)
Definition digit_value (c : Ascii.ascii) : option N :=
  let n := Ascii.N_of_ascii c in
  if ((48 <=? n) && (n <=? 57))%N then Some (n - 48)%N
  else if ((97 <=? n) && (n <=? 122))%N then Some (n - 87)%N
  else if ((65 <=? n) && (n <=? 90))%N then Some (n - 55)%N
  else None.

Definition digit_in (radix : N) (c : Ascii.ascii) : option N :=
  match digit_value c with
  | Some d => if (d <? radix)%N then Some d else None
  | None => None
  end.

(** The number written by the longest prefix of digits. *)
Fixpoint accumulate (radix acc : N) (s : string) : N :=
  match s with
  | String c rest =>
      match digit_in radix c with
      | Some d => accumulate radix (radix * acc + d)%N rest
      | None => acc
      end
  | EmptyString => acc
  end.

Definition digits (radix : N) (s : string) : option N :=
  match s with
  | String c _ =>
      match digit_in radix c with
      | Some _ => Some (accumulate radix 0 s)
      | None => None
      end
  | EmptyString => None
  end.

Fixpoint trim_start (s : string) : string :=
  match s with
  | String c rest => if is_white_space c then trim_start rest else s
  | EmptyString => EmptyString
  end.

(** [parseInt(s)] without a radix: leading white space and a sign are
    skipped, [0x] or [0X] selects base 16, the longest prefix of digits is
    read and what follows it is ignored; without a digit the result is
    NaN. *)
Definition parseInt (s : string) : number :=
  let s1 := trim_start s in
  let signed :=
    match s1 with
    | String "-"%char rest => (true, rest)
    | String "+"%char rest => (false, rest)
    | _ => (false, s1)
    end in
  let based :=
    match signed.2 with
    | String "0"%char (String "x"%char rest) => (16%N, rest)
    | String "0"%char (String "X"%char rest) => (16%N, rest)
    | _ => (10%N, signed.2)
    end in
  match digits based.1 based.2 with
  | Some n => Int (if signed.1 then - Z.of_N n else Z.of_N n)
  | None => NaN
  end.

Module Dom.

(** The document: elements with their class list and children, and text
    nodes. *)
Inductive tree :=
| Text (data : string)
| Element (tag : string) (classes : list string) (children : list tree).

(** A node is addressed by the child indices that lead to it from the
    root. *)
Definition path := list nat.

(** [el.classList.contains(cls)], which is also whether the selector
    [.cls] matches [el]. *)
Definition has_class (cls : string) (n : tree) : bool :=
  match n with
  | Element _ classes _ => bool_decide (cls ∈ classes)
  | Text _ => false
  end.

(** [node.textContent] *)
Fixpoint text_content (n : tree) : string :=
  match n with
  | Text data => data
  | Element _ _ children => String.concat "" (List.map text_content children)
  end.

(** [node.textContent = s]: the children of an element are replaced by
    one text node, or by none when [s] is empty. *)
Definition set_text_content (s : string) (n : tree) : tree :=
  match n with
  | Element tag classes _ =>
      Element tag classes (if String.eqb s "" then [] else [Text s])
  | Text _ => Text s
  end.

Fixpoint at_path (p : path) (n : tree) : option tree :=
  match p with
  | [] => Some n
  | i :: rest =>
      match n with
      | Element _ _ children => c ← children !! i; at_path rest c
      | Text _ => None
      end
  end.

(** The document with [f] applied to the node at [p]. *)
Fixpoint update (p : path) (f : tree → tree) (n : tree) : tree :=
  match p with
  | [] => f n
  | i :: rest =>
      match n with
      | Element tag classes children =>
          Element tag classes (alter (update rest f) i children)
      | Text _ => n
      end
  end.

(** [el.closest('.cls')] for the element at [p]: the element itself or
    its nearest ancestor of class [cls]. *)
Fixpoint closest (cls : string) (n : tree) (p : path) : option path :=
  match p with
  | [] => if has_class cls n then Some [] else None
  | i :: rest =>
      match n with
      | Element _ _ children =>
          match children !! i with
          | Some c =>
              match closest cls c rest with
              | Some q => Some (i :: q)
              | None => if has_class cls n then Some [] else None
              end
          | None => None
          end
      | Text _ => None
      end
  end.

(** The first of the trees [l], numbered from [i], that has the class or
    holds a descendant found by [inside]. *)
Fixpoint first_match (cls : string) (inside : tree → option path)
    (i : nat) (l : list tree) : option path :=
  match l with
  | [] => None
  | c :: rest =>
      if has_class cls c then Some [i]
      else
        match inside c with
        | Some q => Some (i :: q)
        | None => first_match cls inside (S i) rest
        end
  end.

(** [el.querySelector('.cls')]: the first descendant of [el] of class
    [cls], in document order. *)
Fixpoint query_selector (cls : string) (n : tree) : option path :=
  match n with
  | Element _ _ children => first_match cls (query_selector cls) 0 children
  | Text _ => None
  end.

End Dom.

(** The click listener of a vote button, [this] being the button:
    [[
      const post = this.closest('.post');
      const voteCount = post.querySelector('.vote-count');
      const currentCount = parseInt(voteCount.textContent);
      if (this.classList.contains('upvote')) voteCount.textContent = currentCount + 1;
      else if (this.classList.contains('downvote')) voteCount.textContent = currentCount - 1;
    ]]
    [vote_count] is the part up to [voteCount]: its path, and the element
    there.  A path that leads to no node has no listener. *)
Definition vote_count (doc : Dom.tree) (this : Dom.path) : exn + Dom.path * Dom.tree :=
  match Dom.closest "post" doc this with
  | None => inl (TypeError "Cannot read properties of null (reading 'querySelector')")
  | Some post =>
      match
        post_el ← Dom.at_path post doc;
        rel ← Dom.query_selector "vote-count" post_el;
        el ← Dom.at_path rel post_el;
        Some (post ++ rel, el)
      with
      | None => inl (TypeError "Cannot read properties of null (reading 'textContent')")
      | Some found => inr found
      end
  end.

Definition on_vote_click (doc : Dom.tree) (this : Dom.path) : exn + Dom.tree :=
  match Dom.at_path this doc with
  | None => inr doc
  | Some button =>
      found ← vote_count doc this;
      let currentCount := parseInt (Dom.text_content found.2) in
      if Dom.has_class "upvote" button then
        inr (Dom.update found.1
               (Dom.set_text_content (to_string (VNum (add currentCount 1)))) doc)
      else if Dom.has_class "downvote" button then
        inr (Dom.update found.1
               (Dom.set_text_content (to_string (VNum (add currentCount (-1))))) doc)
      else inr doc
  end.

(** A post as the style sheet lays it out: the votes column with the two
    buttons around the count, and the content. *)
Definition sample_post (count : string) : Dom.tree :=
  Dom.Element "div" ["post"]
    [ Dom.Element "div" ["post-votes"]
        [ Dom.Element "button" ["vote-btn"; "upvote"] [Dom.Text "+"];
          Dom.Element "span" ["vote-count"] [Dom.Text count];
          Dom.Element "button" ["vote-btn"; "downvote"] [Dom.Text "-"] ];
      Dom.Element "div" ["post-content"]
        [ Dom.Element "h2" ["post-title"] [Dom.Text "Theft"] ] ].

Definition sample_page (first second : string) : Dom.tree :=
  Dom.Element "div" ["posts-container"] [sample_post first; sample_post second].

(** What a click on a button adds to the count: 1 for an [upvote]
    button, whatever its other classes, -1 for any other [downvote]
    button, nothing for the rest. *)
Definition vote_delta (button : Dom.tree) : option Z :=
  if Dom.has_class "upvote" button then Some 1
  else if Dom.has_class "downvote" button then Some (-1)
  else None.

(** [q] lies strictly below [p]. *)
Definition strictly_below (p q : Dom.path) : Prop :=
  ∃ i rest, q = p ++ i :: rest.

(** ** Hosts and scalar fields *)



(** [record.name], [undefined] when the read throws. *)
Definition field (record : value) (name : string) : value :=
  match get_field record name with
  | inr v => v
  | inl _ => VUndefined
  end.


(** The values that are neither objects nor arrays: their conversions to
    a string or a number cannot throw. *)
Definition scalar (v : value) : bool :=
  match v with
  | VArr _ | VObj _ => false
  | _ => true
  end.

(** A record all of whose displayed fields are scalar or absent. *)
Definition plain_record (record : value) : bool :=
  readable record
  && forallb (λ name, scalar (field record name))
       ["OBJECTID"; "Incident_Type"; "Occurred_Datetime"; "Block_Address";
        "Case_Number"; "DESCRIPTION"].

(** The items of an array have scalar identifiers. *)
Definition scalar_identifiers (crimes : value) : bool :=
  match crimes with
  | VArr records => forallb (λ r, scalar (field r "OBJECTID")) records
  | _ => true
  end.

(** The values other than arrays whose [length] is the number 0: the
    empty string, and an object with a [length] field that is 0. *)
Definition reads_empty (data : value) : bool :=
  match data with
  | VStr s => String.eqb s ""
  | VObj fields =>
      match fields !! "length" with
      | Some (VNum (Int 0)) => true
      | _ => false
      end
  | _ => false
  end.

(** * Properties *)

(** ** The callbacks *)

Lemma on_json_throws_on_unreadable payload c e :
  get_field payload "error" = inl e → on_json payload c = (inl e, c).
Proof.
  intros Hget. unfold on_json, lift, mbind, Act_bind. by rewrite Hget.
Qed.

Lemma on_json_throws_on_error payload c err :
  get_field payload "error" = inr err → truthy err = true →
  on_json payload c = (inl (Error (to_string err)), c).
Proof.
  intros Hget Htruthy. unfold on_json, lift, mbind, Act_bind.
  rewrite Hget. cbn. by rewrite Htruthy.
Qed.

Lemma on_json_assigns payload c err :
  get_field payload "error" = inr err → truthy err = false →
  on_json payload c = (get_field payload "data" ≫= λ _, inr (),
                       match get_field payload "data" with
                       | inr data => exec (setCrimes data) c
                       | inl _ => c
                       end).
Proof.
  intros Hget Htruthy. unfold on_json, lift, mbind, Act_bind, exn_bind.
  rewrite Hget. cbn. rewrite Htruthy.
  by destruct (get_field payload "data").
Qed.

(** Reading one property of a value throws exactly when reading another
    one does. *)
Lemma get_field_readable v name :
  readable v = true → get_field v name = inr (match v with
                                              | VObj fields => default VUndefined (fields !! name)
                                              | _ => VUndefined
                                              end).
Proof. by destruct v. Qed.

Lemma get_field_inr_readable v name w :
  get_field v name = inr w → readable v = true.
Proof. by destruct v. Qed.

(** The second [then] and the verdict agree. *)
Lemma on_json_verdict res payload c :
  on_response res = inr (inr payload) →
  on_json payload c =
    match verdict (inr res) with
    | inr data => (inr (), exec (setCrimes data) c)
    | inl e => (inl e, c)
    end.
Proof.
  intros Hres. unfold verdict. cbn. rewrite Hres. cbn.
  destruct (get_field payload "error") as [e|err] eqn:Herr.
  - by apply on_json_throws_on_unreadable.
  - cbn. destruct (truthy err) eqn:Htruthy.
    + by apply on_json_throws_on_error.
    + rewrite (on_json_assigns _ _ _ Herr Htruthy).
      apply get_field_inr_readable in Herr.
      by rewrite (get_field_readable _ "data" Herr).
Qed.

(** ** The chain, reaction by reaction *)

Lemma resolved_loading answer : loading (resolved answer) = true.
Proof. unfold resolved. by destruct (verdict answer). Qed.

Lemma stage_react answer ph c :
  stage answer c ph →
  stage answer (react answer ph c).2 (react answer ph c).1.
Proof.
  destruct 1 as [|res p -> Hres|e Hv|data Hv| |]; cbn.
  - destruct answer as [e|res]; cbn.
    + by apply stage_thrown.
    + destruct (on_response res) as [e|p] eqn:Hres; cbn.
      * apply stage_thrown. unfold verdict. cbn. by rewrite Hres.
      * by eapply stage_body.
  - destruct p as [e|payload]; cbn.
    + apply stage_thrown. unfold verdict. cbn. by rewrite Hres.
    + rewrite (on_json_verdict res payload requested Hres).
      destruct (verdict (inr res)) as [e|data] eqn:Hv; cbn.
      * by apply stage_thrown.
      * pose proof (stage_assigned (inr res) data Hv) as Hs.
        unfold resolved in Hs. rewrite Hv in Hs. exact Hs.
  - pose proof (stage_resolved answer) as Hs.
    unfold resolved in Hs. rewrite Hv in Hs. exact Hs.
  - apply stage_resolved.
  - apply stage_settled.
  - apply stage_settled.
Qed.

Lemma stage_pending answer c ph :
  stage answer c ph → (∀ r, ph ≠ Settled r) →
  loading c = true
  ∧ List.filter is_set_loading (journal c) = []
  ∧ List.filter is_fetch (journal c) = [Fetch "/api/crimes"].
Proof.
  destruct 1; intros Hpending; try done;
    try (unfold resolved; by destruct (verdict answer)).
  by destruct (Hpending (inr ())).
Qed.

Lemma stage_settled_inv answer c r :
  stage answer c (Settled r) → r = inr () ∧ c = final answer.
Proof. by inversion 1. Qed.

Lemma final_facts answer :
  loading (final answer) = false
  ∧ List.filter is_set_loading (journal (final answer)) = [SetLoading false]
  ∧ List.filter is_fetch (journal (final answer)) = [Fetch "/api/crimes"]
  ∧ journal (final answer) = journal (resolved answer) ++ [SetLoading false]
  ∧ crimes (final answer) = match verdict answer with
                            | inr data => data
                            | inl _ => VArr []
                            end.
Proof. unfold final, resolved. by destruct (verdict answer). Qed.

(** ** Every schedule *)

Lemma replicate_snoc {A} (n : nat) (x : A) :
  replicate n x ++ [x] = replicate (S n) x.
Proof. induction n as [|n IH]; cbn; [done|]. by rewrite IH. Qed.

Lemma render_loading s :
  loading (cells s) = true → remembered s = Some [] →
  render s = {| cells := cells s; remembered := Some []; chains := chains s;
                frames := frames s ++ [loading_frame] |}.
Proof.
  intros Hl Hr. unfold render, App_view, feed. rewrite Hl, Hr. by cbn.
Qed.

Lemma render_mounted s :
  remembered s = Some [] →
  render s = {| cells := cells s; remembered := Some []; chains := chains s;
                frames := frames s ++ [frame_of (cells s)] |}.
Proof.
  intros Hr. unfold render, frame_of. rewrite Hr.
  by destruct (App_view _ _).
Qed.

Lemma step_reached network ev s :
  reached (network 0%nat) s → reached (network 0%nat) (step network ev s).
Proof.
  destruct 1 as [|c ph n Hstage Hpending|n m].
  - destruct ev as [|i]; cbn.
    + apply (reached_pending _ _ _ 0); [apply stage_await | done].
    + apply reached_unmounted.
  - destruct (stage_pending _ _ _ Hstage Hpending) as (Hl & _ & _).
    destruct ev as [|[|i]].
    + cbn [step]. rewrite render_loading by done. cbn [cells chains frames].
      rewrite replicate_snoc. by apply reached_pending.
    + pose proof (stage_react _ _ _ Hstage) as Hnext.
      unfold step, tick. cbn [cells chains frames remembered fst snd lookup].
      cbn [list_lookup].
      destruct (react (network 0%nat) ph c) as [ph' c'] eqn:Hreact.
      cbn [fst snd] in Hnext |- *. cbn [list_insert insert].
      destruct ph' as [|p|r|r|r]; try (by apply reached_pending).
      apply stage_settled_inv in Hnext as [-> ->].
      rewrite <- (app_nil_r (replicate (S n) loading_frame)).
      apply (reached_settled _ n 0).
    + cbn. by apply reached_pending.
  - destruct ev as [|[|i]].
    + cbn [step]. rewrite render_mounted by done. cbn [cells chains frames].
      rewrite <- app_assoc, replicate_snoc. apply reached_settled.
    + cbn. apply reached_settled.
    + cbn. apply reached_settled.
Qed.

Lemma run_reached network evs s :
  reached (network 0%nat) s → reached (network 0%nat) (run network evs s).
Proof.
  revert s. induction evs as [|ev evs IH]; intros s Hs; [done|].
  cbn. apply IH. by apply step_reached.
Qed.

Lemma schedule_reached network evs :
  reached (network 0%nat) (run network evs unmounted).
Proof. apply run_reached, reached_unmounted. Qed.

(** What holds of an instance that a schedule leads to. *)
Lemma reached_settled_cells answer s :
  reached answer s → settled s = true → cells s = final answer.
Proof.
  destruct 1 as [|c ph n Hstage Hpending|n m]; cbn; try done.
  destruct ph; try done. by destruct (Hpending r).
Qed.

Lemma reached_pending_cells answer s :
  reached answer s → settled s = false →
  loading (cells s) = true ∧ List.filter is_set_loading (journal (cells s)) = [].
Proof.
  destruct 1 as [|c ph n Hstage Hpending|n m]; cbn; try done.
  intros _. by destruct (stage_pending _ _ _ Hstage Hpending) as (? & ? & _).
Qed.

Lemma reached_frames answer s :
  reached answer s →
  ∃ n m, frames s = replicate n loading_frame ++ replicate m (frame_of (final answer))
         ∧ (settled s = true ∨ m = 0%nat).
Proof.
  destruct 1 as [|c ph n Hstage Hpending|n m].
  - exists 0%nat, 0%nat. by split; [|right].
  - exists (S n), 0%nat. split; [|by right]. cbn [frames]. by rewrite app_nil_r.
  - exists (S n), m. by split; [|left].
Qed.

Lemma reached_mounted_fetch answer s :
  reached answer s → frames s ≠ [] →
  List.filter is_fetch (journal (cells s)) = [Fetch "/api/crimes"]
  ∧ remembered s = Some [] ∧ List.length (chains s) = 1%nat.
Proof.
  destruct 1 as [|c ph n Hstage Hpending|n m]; try done; intros _.
  - by destruct (stage_pending _ _ _ Hstage Hpending) as (_ & _ & ?).
  - by destruct (final_facts answer) as (_ & _ & ? & _).
Qed.

(** Four reactions settle the chain, whatever the answer. *)
Lemma react_four answer :
  let next := λ pc : phase * store, react answer pc.1 pc.2 in
  next (next (next (next (AwaitResponse, requested)))) = (Settled (inr ()), final answer).
Proof.
  assert (Hrest : ∀ ph c, stage answer c ph → ph ≠ AwaitResponse →
            (∀ p, ph ≠ AwaitBody p) → (∀ r, ph ≠ AfterThen r) →
            react answer ph c = (Settled (inr ()), final answer)).
  { intros ph c [] H1 H2 H3; try done.
    - by destruct (H2 p).
    - by destruct (H3 (inl e)).
    - by destruct (H3 (inr ())). }
  cbn zeta.
  destruct answer as [e|res]; [done|].
  cbn [react fst snd].
  destruct (on_response res) as [e|[e|payload]] eqn:Hres; cbn [react fst snd].
  - unfold final, resolved, verdict. cbn. by rewrite Hres.
  - unfold final, resolved, verdict. cbn. by rewrite Hres.
  - rewrite (on_json_verdict res payload requested Hres).
    unfold final, resolved.
    by destruct (verdict (inr res)).
Qed.

Lemma step_tick network c ph fs :
  step network (Tick 0)
    {| cells := c; remembered := Some []; chains := [ph]; frames := fs |} =
  {| cells := (react (network 0%nat) ph c).2; remembered := Some [];
     chains := [(react (network 0%nat) ph c).1]; frames := fs |}.
Proof.
  unfold step, tick. cbn [cells chains frames remembered fst snd].
  cbn [lookup list_lookup]. by destruct (react (network 0%nat) ph c).
Qed.

Lemma to_settlement_final network :
  run network to_settlement unmounted =
    {| cells := final (network 0%nat); remembered := Some [];
       chains := [Settled (inr ())]; frames := [loading_frame] |}.
Proof.
  pose proof (react_four (network 0%nat)) as Hfour. cbn zeta in Hfour.
  unfold to_settlement, run. cbn [foldl].
  change (step network Render unmounted) with
    {| cells := requested; remembered := Some []; chains := [AwaitResponse];
       frames := [loading_frame] |}.
  rewrite !step_tick. cbn [fst snd] in Hfour. by rewrite Hfour.
Qed.

Lemma to_settlement_settles network :
  settled (run network to_settlement unmounted) = true.
Proof. by rewrite to_settlement_final. Qed.

Lemma lifecycle_final answer :
  cells (lifecycle answer) = final answer
  ∧ chains (lifecycle answer) = [Settled (inr ())]
  ∧ frames (lifecycle answer) = [loading_frame; frame_of (final answer)].
Proof.
  unfold lifecycle.
  change (run (λ _, answer) (to_settlement ++ [Render]) unmounted)
    with (foldl (λ s ev, step (λ _, answer) ev s) unmounted (to_settlement ++ [Render])).
  rewrite foldl_app.
  change (foldl (λ s ev, step (λ _, answer) ev s) unmounted to_settlement)
    with (run (λ _, answer) to_settlement unmounted).
  rewrite to_settlement_final.
  cbn [foldl step]. by rewrite render_mounted.
Qed.

(** ** The feed *)

Lemma verdict_success res payload err :
  ok res = true → body res = Some payload →
  get_field payload "error" = inr err → truthy err = false →
  verdict (inr res) = get_field payload "data".
Proof.
  intros Hok Hbody Herr Hfalsy. unfold verdict, on_response, json. cbn.
  rewrite Hok, Hbody. cbn. rewrite Herr. cbn. by rewrite Hfalsy.
Qed.

Lemma map_card_of records :
  forallb readable records = true →
  map_throwing card_of records = inr (item_view <$> records).
Proof.
  induction records as [|r rest IH]; [done|].
  cbn [forallb]. intros [Hr Hrest]%andb_prop. cbn.
  rewrite (IH Hrest). unfold card_of, item_view, identifier.
  by rewrite (get_field_readable r "OBJECTID" Hr).
Qed.

Lemma card_of_unreadable r :
  readable r = false →
  card_of r = inl (TypeError ("Cannot read properties of " +:+ to_string r
                              +:+ " (reading 'OBJECTID')")).
Proof. by destruct r. Qed.

Lemma map_card_of_find records :
  map_throwing card_of records =
    match List.find (λ r, negb (readable r)) records with
    | None => inr (item_view <$> records)
    | Some r => inl (TypeError ("Cannot read properties of " +:+ to_string r
                                +:+ " (reading 'OBJECTID')"))
    end.
Proof.
  induction records as [|r rest IH]; [done|].
  cbn [map_throwing List.find]. destruct (readable r) eqn:Hr; cbn [negb].
  - rewrite IH. unfold card_of at 1. rewrite (get_field_readable r "OBJECTID" Hr).
    cbn. destruct (List.find _ rest); [done|].
    unfold item_view at 2, identifier.
    by rewrite (get_field_readable r "OBJECTID" Hr).
  - by rewrite (card_of_unreadable r Hr).
Qed.

Lemma feed_records records :
  forallb readable records = true →
  feed (VArr records) false =
    inr (match records with
         | [] => [empty_message]
         | _ => item_view <$> records
         end).
Proof.
  intros Hr. unfold feed. destruct records as [|r rest]; [done|].
  cbn [get_length mbind exn_bind List.length Z.of_nat is_zero array_map].
  by apply map_card_of.
Qed.

Lemma display_of_cards r rest :
  display_of (item_view <$> r :: rest) =
    Some (ShowsCards ((λ x, react_key (identifier x)) <$> r :: rest)).
Proof.
  assert (Hkeys : ∀ l, mapM card_key (item_view <$> l) =
                        Some ((λ x, react_key (identifier x)) <$> l)).
  { induction l as [|x l IH]; [done|]. cbn. rewrite IH. done. }
  change (display_of (item_view <$> r :: rest))
    with (ShowsCards <$> mapM card_key (item_view <$> r :: rest)).
  by rewrite Hkeys.
Qed.

(** A [null] in the data sequence is no record: the render throws at
    its [OBJECTID]. *)
Example null_record_throws :
  feed (VArr [theft; VNull]) false =
    inl (TypeError "Cannot read properties of null (reading 'OBJECTID')").
Proof. by vm_compute. Qed.

(** C1.  After a successful fetch whose payload carries a data sequence
    of records, on every schedule that lets the chain settle, [loading] is
    false, the state holds the sequence, and the feed consists of one
    [CrimeCard] element per record, in the order of the sequence and keyed
    by the record's [OBJECTID]; when the sequence is empty the feed is the
    single empty-state message; while [loading] is true the feed is the
    loading indicator alone.  The three feeds are told apart by
    [display_of], so that no two modes are shown at once.  Such a
    schedule exists: [to_settlement] is one. *)
Theorem feed_after_success network evs res payload err records :
  network 0%nat = inr res →
  ok res = true →
  body res = Some payload →
  get_field payload "error" = inr err →
  truthy err = false →
  get_field payload "data" = inr (VArr records) →
  forallb readable records = true →
  settled (run network evs unmounted) = true →
  settled (run network to_settlement unmounted) = true
  ∧ loading (cells (run network evs unmounted)) = false
  ∧ crimes (cells (run network evs unmounted)) = VArr records
  ∧ feed (crimes (cells (run network evs unmounted)))
         (loading (cells (run network evs unmounted))) =
      inr (match records with
           | [] => [empty_message]
           | _ => item_view <$> records
           end)
  ∧ List.length (item_view <$> records) = List.length records
  ∧ feed (crimes (cells (run network evs unmounted))) true = inr [loading_message]
  ∧ display_of [loading_message] = Some ShowsLoading
  ∧ display_of (match records with
                | [] => [empty_message]
                | _ => item_view <$> records
                end) =
      Some (match records with
            | [] => ShowsEmpty
            | _ => ShowsCards ((λ r, react_key (identifier r)) <$> records)
            end).
Proof.
  intros Hnet Hok Hbody Herr Hfalsy Hdata Hrecords Hsettled.
  pose proof (schedule_reached network evs) as Hreached.
  rewrite (reached_settled_cells _ _ Hreached Hsettled).
  destruct (final_facts (network 0%nat)) as (Hloading & _ & _ & _ & Hcrimes).
  rewrite Hnet in Hloading, Hcrimes |- *.
  rewrite (verdict_success _ _ _ Hok Hbody Herr Hfalsy), Hdata in Hcrimes.
  rewrite Hloading, Hcrimes.
  split; [apply to_settlement_settles|].
  split; [done|]. split; [done|].
  split; [by apply feed_records|].
  split; [apply length_fmap|].
  split; [done|]. split; [done|].
  destruct records as [|r rest]; [done|]. apply display_of_cards.
Qed.

Lemma feed_after_success_witness :
  let s := run (λ _, inr (respond 200 (obj [("data", VArr [theft; burglary])])))
             to_settlement unmounted in
  loading (cells s) = false
  ∧ crimes (cells s) = VArr [theft; burglary]
  ∧ feed (crimes (cells s)) (loading (cells s)) =
      inr [CrimeCardElement (Some "1") theft; CrimeCardElement (Some "207") burglary]
  ∧ display_of [CrimeCardElement (Some "1") theft; CrimeCardElement (Some "207") burglary] =
      Some (ShowsCards [Some "1"; Some "207"]).
Proof.
  pose proof (feed_after_success
                (λ _, inr (respond 200 (obj [("data", VArr [theft; burglary])])))
                to_settlement
                (respond 200 (obj [("data", VArr [theft; burglary])]))
                (obj [("data", VArr [theft; burglary])])
                VUndefined [theft; burglary]
                eq_refl eq_refl eq_refl eq_refl eq_refl eq_refl eq_refl eq_refl)
    as (_ & Hloading & Hcrimes & Hfeed & _ & _ & _ & Hdisplay).
  exact (conj Hloading (conj Hcrimes (conj Hfeed Hdisplay))).
Defined.

(** ** Failures *)

Lemma failure_verdict answer e : failure answer e ↔ verdict answer = inl e.
Proof.
  split.
  - destruct 1 as [e|res Hok|res e Hok Hjson|res payload e Hok Hbody Herr
                   |res payload err Hok Hbody Herr Htruthy];
      unfold verdict, on_response; cbn; rewrite ?Hok; cbn; try done.
    + by rewrite Hjson.
    + unfold json. rewrite Hbody. cbn. by rewrite Herr.
    + unfold json. rewrite Hbody. cbn. rewrite Herr. cbn. by rewrite Htruthy.
  - destruct answer as [e'|res]; cbn.
    { intros [= ->]. apply network_failure. }
    unfold verdict, on_response. cbn.
    destruct (ok res) eqn:Hok; cbn.
    2:{ intros [= <-]. by apply transport_error. }
    destruct (json res) as [e'|payload] eqn:Hjson; cbn.
    { intros [= ->]. by apply decode_error. }
    assert (Hbody : body res = Some payload).
    { unfold json in Hjson. by destruct (body res) as [v|]; simplify_eq. }
    destruct (get_field payload "error") as [e'|err] eqn:Herr; cbn.
    { intros [= ->]. by eapply unreadable_payload. }
    destruct (truthy err) eqn:Htruthy.
    + intros [= <-]. by eapply application_error.
    + intros Hdata. apply get_field_inr_readable in Herr.
      by rewrite (get_field_readable _ "data" Herr) in Hdata.
Qed.

Lemma final_of_failure answer e :
  verdict answer = inl e →
  final answer =
    {| crimes := VArr []; loading := false;
       journal := [Fetch "/api/crimes"; ConsoleError e; SetCrimes (VArr []);
                   SetLoading false] |}.
Proof. intros Hv. unfold final, resolved. by rewrite Hv. Qed.

Lemma final_of_success answer data :
  verdict answer = inr data →
  final answer =
    {| crimes := data; loading := false;
       journal := [Fetch "/api/crimes"; SetCrimes data; SetLoading false] |}.
Proof. intros Hv. unfold final, resolved. by rewrite Hv. Qed.

(** C2, as stated, fails: a 2xx payload whose [error] field is the empty
    string carries an error field, and the records of its [data] field
    end up in the state. *)
Lemma blank_error_is_no_failure :
  failure_by_presence (inr blank_error)
  ∧ crimes (cells (lifecycle (inr blank_error))) = VArr [theft]
  ∧ crimes (cells (lifecycle (inr blank_error))) ≠ VArr []
  ∧ frame_of (cells (lifecycle (inr blank_error))) ≠
      frame_of (cells (lifecycle empty_success)).
Proof.
  split.
  { exists blank_error. split; [done|]. right. left.
    eexists _, (VStr ""). split; [reflexivity|]. by vm_compute. }
  destruct (lifecycle_final (inr blank_error)) as (-> & _).
  destruct (lifecycle_final empty_success) as (-> & _).
  rewrite (final_of_success (inr blank_error) (VArr [theft])) by by vm_compute.
  rewrite (final_of_success empty_success (VArr [])) by by vm_compute.
  by repeat split.
Qed.

(** C2, amended.  For every failure outcome (the request fails, the
    status is not a 2xx one, the body is not JSON, the payload is [null],
    or the [error] property of the payload is truthy), on every schedule
    that lets the chain settle, the state ends with no records and
    [loading] false, the exception has been logged, and the element
    rendered is the one rendered after a successful response with zero
    records: the empty-state message.  Such a schedule exists:
    [to_settlement] is one. *)
Theorem failure_ends_empty network evs e :
  failure (network 0%nat) e →
  settled (run network evs unmounted) = true →
  settled (run network to_settlement unmounted) = true
  ∧ crimes (cells (run network evs unmounted)) = VArr []
  ∧ loading (cells (run network evs unmounted)) = false
  ∧ logged (cells (run network evs unmounted)) = [e]
  ∧ frame_of (cells (run network evs unmounted)) =
      frame_of (cells (lifecycle empty_success))
  ∧ frame_of (cells (run network evs unmounted)) = inr (page [empty_message]).
Proof.
  intros Hfail%failure_verdict Hsettled.
  split; [apply to_settlement_settles|].
  rewrite (reached_settled_cells _ _ (schedule_reached network evs) Hsettled).
  rewrite (final_of_failure _ _ Hfail).
  destruct (lifecycle_final empty_success) as (-> & _).
  by rewrite (final_of_success empty_success (VArr [])).
Qed.

Lemma failure_ends_empty_witness :
  let s := run (λ _, inr (respond 200 (obj [("error", VStr "db down")])))
             to_settlement unmounted in
  settled s = true
  ∧ crimes (cells s) = VArr []
  ∧ loading (cells s) = false
  ∧ logged (cells s) = [Error "db down"]
  ∧ frame_of (cells s) = frame_of (cells (lifecycle empty_success))
  ∧ frame_of (cells s) = inr (page [empty_message]).
Proof.
  apply (failure_ends_empty
           (λ _, inr (respond 200 (obj [("error", VStr "db down")])))
           to_settlement (Error "db down")).
  - apply (application_error (respond 200 (obj [("error", VStr "db down")]))
             (obj [("error", VStr "db down")]) (VStr "db down"));
      reflexivity.
  - reflexivity.
Defined.

(** ** The diagnostic *)

(** C3, as stated, fails: with status 500 and body [{"error":"db down"}]
    the only diagnostic logged is the error [HTTP 500]; no logged message
    contains [db down]. *)
Lemma status_500_hides_db_down :
  logged (cells (lifecycle (inr (db_down 500)))) = [Error "HTTP 500"]
  ∧ ¬ ∃ e, e ∈ logged (cells (lifecycle (inr (db_down 500))))
           ∧ includes (message e) "db down" = true.
Proof.
  destruct (lifecycle_final (inr (db_down 500))) as (-> & _).
  rewrite (final_of_failure _ (Error "HTTP 500")) by by vm_compute.
  split; [done|].
  intros (e & ->%list_elem_of_singleton & Hincl). by vm_compute in Hincl.
Qed.

(** C3, amended.  A response whose payload carries a non-empty [error]
    string is treated as a failure whatever its status: on every schedule
    that lets the chain settle, the empty-state message is shown and
    exactly one diagnostic has been logged.  The status is looked at
    before the body: with a status that is not a 2xx one (500 among them)
    the diagnostic is [HTTP] followed by the status, and with a 2xx
    status it is the error string of the payload. *)
Theorem error_payload_diagnostic network evs res payload msg :
  network 0%nat = inr res →
  body res = Some payload →
  get_field payload "error" = inr (VStr msg) →
  msg ≠ "" →
  settled (run network evs unmounted) = true →
  settled (run network to_settlement unmounted) = true
  ∧ feed (crimes (cells (run network evs unmounted)))
         (loading (cells (run network evs unmounted))) = inr [empty_message]
  ∧ logged (cells (run network evs unmounted)) =
      [Error (if ok res then msg else "HTTP " +:+ pretty (status res))].
Proof.
  intros Hnet Hbody Herr Hmsg Hsettled.
  split; [apply to_settlement_settles|].
  rewrite (reached_settled_cells _ _ (schedule_reached network evs) Hsettled).
  rewrite Hnet.
  assert (Hfail : failure (inr res)
            (Error (if ok res then msg else "HTTP " +:+ pretty (status res)))).
  { destruct (ok res) eqn:Hok.
    - apply (application_error res payload (VStr msg)); try done.
      cbn. by destruct (String.eqb_spec msg "").
    - by apply transport_error. }
  apply failure_verdict in Hfail. by rewrite (final_of_failure _ _ Hfail).
Qed.

Lemma error_payload_diagnostic_witness :
  let s := run (λ _, inr (db_down 500)) to_settlement unmounted in
  settled s = true
  ∧ feed (crimes (cells s)) (loading (cells s)) = inr [empty_message]
  ∧ logged (cells s) = [Error "HTTP 500"].
Proof.
  apply (error_payload_diagnostic (λ _, inr (db_down 500)) to_settlement
           (db_down 500) (obj [("error", VStr "db down")]) "db down");
    [reflexivity | reflexivity | reflexivity | discriminate | reflexivity].
Defined.

(** With a 2xx status the same body does log [db down]. *)
Example status_200_logs_db_down :
  logged (cells (lifecycle (inr (db_down 200)))) = [Error "db down"].
Proof.
  destruct (lifecycle_final (inr (db_down 200))) as (-> & _).
  by rewrite (final_of_failure _ (Error "db down")).
Qed.

(** ** Loading *)

Lemma run_app network evs evs' s :
  run network (evs ++ evs') s = run network evs' (run network evs s).
Proof. apply foldl_app. Qed.

Lemma frames_grow network evs s :
  (List.length (frames s) ≤ List.length (frames (run network evs s)))%nat.
Proof.
  revert s. induction evs as [|ev evs IH]; intros s; [done|].
  cbn. etrans; [|apply IH].
  destruct ev as [|i]; cbn; [|done].
  unfold render. destruct (App_view _ _); cbn; rewrite length_app; lia.
Qed.

Lemma mounted_frames network evs :
  frames (run network (Render :: evs) unmounted) ≠ [].
Proof.
  pose proof (frames_grow network evs (step network Render unmounted)) as Hle.
  change (run network (Render :: evs) unmounted)
    with (run network evs (step network Render unmounted)).
  destruct (frames (run network evs (step network Render unmounted))); [|done].
  cbn in Hle. lia.
Qed.

Lemma final_journal answer :
  ∃ pre v, journal (final answer) = pre ++ [SetCrimes v; SetLoading false]
           ∧ List.filter is_set_loading pre = []
           ∧ List.filter is_set_crimes pre = [].
Proof.
  unfold final, resolved. destruct (verdict answer) as [e|data].
  - by exists [Fetch "/api/crimes"; ConsoleError e], (VArr []).
  - by exists [Fetch "/api/crimes"], data.
Qed.

(** C4.  [loading] starts as true and is true right after the mount; on
    every schedule, from the mount on and as long as the chain has not
    settled, [loading] is true and [setLoading] has not been called; once
    the chain has settled, [loading] is false and the journal ends with
    the state update of the success or failure branch followed by the one
    call of [setLoading], with [false].  The chain does settle, whatever
    the network answers: four reactions after the mount are enough. *)
Theorem loading_until_settled :
  loading (cells unmounted) = true
  ∧ (∀ network, loading (cells (run network [Render] unmounted)) = true)
  ∧ (∀ network, settled (run network to_settlement unmounted) = true)
  ∧ ∀ network evs,
      if settled (run network (Render :: evs) unmounted)
      then loading (cells (run network (Render :: evs) unmounted)) = false
           ∧ ∃ pre v,
               journal (cells (run network (Render :: evs) unmounted)) =
                 pre ++ [SetCrimes v; SetLoading false]
               ∧ List.filter is_set_loading pre = []
               ∧ List.filter is_set_crimes pre = []
      else loading (cells (run network (Render :: evs) unmounted)) = true
           ∧ List.filter is_set_loading
               (journal (cells (run network (Render :: evs) unmounted))) = [].
Proof.
  split; [done|]. split; [done|].
  split; [apply to_settlement_settles|].
  intros network evs.
  pose proof (schedule_reached network (Render :: evs)) as Hreached.
  destruct (settled _) eqn:Hsettled.
  - rewrite (reached_settled_cells _ _ Hreached Hsettled).
    destruct (final_facts (network 0%nat)) as (Hl & _).
    split; [done|]. apply final_journal.
  - by apply (reached_pending_cells _ _ Hreached).
Qed.

(** ** Frames *)

(** C6.  While [loading] is true the element rendered is the loading
    one whatever the records are, and on every schedule, renders between
    any two reactions included, the elements rendered are a run of
    loading frames followed by a run of frames of the final state, the
    latter empty unless the chain has settled: no frame shows the state
    between the update of the records and the update of [loading]. *)
Theorem no_partial_frame :
  (∀ records, App_view records true = loading_frame)
  ∧ ∀ network evs,
      ∃ n m,
        frames (run network evs unmounted) =
          replicate n loading_frame ++ replicate m (frame_of (final (network 0%nat)))
        ∧ (settled (run network evs unmounted) = true ∨ m = 0%nat).
Proof.
  split; [done|].
  intros network evs. apply reached_frames, schedule_reached.
Qed.

(** A render between [setCrimes] and [setLoading] is a schedule of the
    model; its frame is the loading one. *)
Example render_between_updates :
  let s := run (λ _, inr (respond 200 (obj [("data", VArr [theft])])))
             [Render; Tick 0; Tick 0; Render]%nat unmounted in
  crimes (cells s) = VArr [theft]
  ∧ loading (cells s) = true
  ∧ frames s = [loading_frame; loading_frame].
Proof. by vm_compute. Qed.

(** ** The request *)

(** The dependencies decide whether the effect runs: always at the
    mount, never again for [[]], again for a dependency that changed. *)
Example dependencies_decide :
  effect_due None [] = true
  ∧ effect_due (Some []) [] = false
  ∧ effect_due (Some [VNum (Int 1)]) [VNum (Int 2)] = true
  ∧ effect_due (Some [VNum (Int 1)]) [VNum (Int 1)] = false.
Proof. by repeat split. Qed.

(** C7.  On every schedule that starts with the mount, whatever renders
    and reactions follow, the journal holds exactly one request, a fetch
    of [/api/crimes], the component holds one chain, and one more render
    leaves the journal as it is. *)
Theorem fetch_once network evs :
  List.filter is_fetch (journal (cells (run network (Render :: evs) unmounted))) =
    [Fetch "/api/crimes"]
  ∧ List.length (chains (run network (Render :: evs) unmounted)) = 1%nat
  ∧ journal (cells (run network (Render :: evs ++ [Render]) unmounted)) =
      journal (cells (run network (Render :: evs) unmounted))
  ∧ journal (cells (run network [Render] unmounted)) = [Fetch "/api/crimes"].
Proof.
  pose proof (schedule_reached network (Render :: evs)) as Hreached.
  destruct (reached_mounted_fetch _ _ Hreached (mounted_frames network evs))
    as (Hfetch & Hdeps & Hchains).
  split; [done|]. split; [done|]. split; [|done].
  rewrite app_comm_cons, run_app. cbn [run foldl step].
  by rewrite render_mounted.
Qed.

(** ** The card *)

Lemma CrimeCard_object `{Host} fields :
  ∃ card, CrimeCard (VObj fields) = inr card
    ∧ upvote_counter card =
        Some (Expr (VNum (remainder (to_number (identifier (VObj fields))) 100)))
    ∧ comment_counter card =
        Some (Expr (VNum (add (remainder (to_number (identifier (VObj fields))) 5) 1)))
    ∧ description_slot card =
        Some (and_then (description (VObj fields))
                (Tag "p" None [Expr (description (VObj fields))])).
Proof. eexists. split; [reflexivity|]. by repeat split. Qed.

(** C5.  For a record whose [OBJECTID] is the integer [n], the card
    shows [n % 100] as its upvote counter and [(n % 5) + 1] as its
    comment counter, [%] being the remainder that takes the sign of [n];
    for [n] not negative these are [n mod 100] and [(n mod 5) + 1]. *)
Theorem placeholder_metrics `{Host} crime n :
  get_field crime "OBJECTID" = inr (VNum (Int n)) →
  ∃ card, CrimeCard crime = inr card
    ∧ upvote_counter card = Some (Expr (VNum (Int (Z.rem n 100))))
    ∧ comment_counter card = Some (Expr (VNum (Int (Z.rem n 5 + 1))))
    ∧ (0 ≤ n → Z.rem n 100 = n mod 100 ∧ Z.rem n 5 + 1 = n mod 5 + 1).
Proof.
  intros Hid. destruct crime as [| | | | | |fields]; try done.
  destruct (CrimeCard_object fields) as (card & Hcard & Hup & Hcomments & _).
  exists card. unfold identifier in Hup, Hcomments. rewrite Hid in Hup, Hcomments.
  repeat split; try done.
  - by apply Z.rem_mod_nonneg.
  - f_equal. by apply Z.rem_mod_nonneg.
Qed.

Lemma placeholder_metrics_witness :
  ∃ card, @CrimeCard sample_host theft = inr card
    ∧ upvote_counter card = Some (Expr (VNum (Int 1)))
    ∧ comment_counter card = Some (Expr (VNum (Int 2)))
    ∧ (0 ≤ 1 → Z.rem 1 100 = 1 mod 100 ∧ Z.rem 1 5 + 1 = 1 mod 5 + 1).
Proof.
  apply (@placeholder_metrics sample_host theft 1). reflexivity.
Defined.

(** Scenario A: what the card of the record shows. *)
Example scenario_A_card :
  ∃ card, @CrimeCard sample_host theft = inr card
    ∧ heading card = Some (Expr (VStr "Theft"))
    ∧ timestamp card = Some (Expr (VStr "1/1/2024, 10:00:00 AM"))
    ∧ location card = Some (Expr (VStr "Block of Shattuck Ave"))
    ∧ case_line card = Some (Tag "p" None [Text "Case #"; Expr (VStr "24-0001")])
    ∧ upvote_counter card = Some (Expr (VNum (Int 1)))
    ∧ comment_counter card = Some (Expr (VNum (Int 2))).
Proof. eexists. split; [by vm_compute|]. by vm_compute. Qed.

(** C8.  For a record whose description is absent or a string, the
    description slot of the card is a paragraph exactly when the
    description is present and non-empty, and the paragraph then holds
    the description; otherwise the slot holds no element but the value of
    [crime.DESCRIPTION] itself, [undefined] or the empty string. *)
Theorem description_shown_iff_nonempty `{Host} record :
  description_is_text record = true →
  ∃ card slot, CrimeCard record = inr card
    ∧ description_slot card = Some slot
    ∧ is_paragraph slot = has_description record
    ∧ slot = (if has_description record
              then Tag "p" None [Expr (description record)]
              else Expr (description record))
    ∧ (has_description record = true
       ∨ description record = VUndefined
       ∨ description record = VStr "").
Proof.
  intros Htext. destruct record as [| | | | | |fields]; try done.
  destruct (CrimeCard_object fields) as (card & Hcard & _ & _ & Hslot).
  exists card. eexists. split; [done|]. split; [done|].
  revert Htext. unfold description_is_text, has_description, description, and_then.
  cbn. destruct (fields !! "DESCRIPTION") as [[| | | |s| |]|]; cbn; try done.
  - destruct (String.eqb_spec s "") as [->|Hs]; cbn; by auto.
  - by auto.
Qed.

Lemma description_shown_iff_nonempty_witness :
  ∃ card slot, @CrimeCard sample_host burglary = inr card
    ∧ description_slot card = Some slot
    ∧ is_paragraph slot = has_description burglary
    ∧ slot = (if has_description burglary
              then Tag "p" None [Expr (description burglary)]
              else Expr (description burglary))
    ∧ (has_description burglary = true
       ∨ description burglary = VUndefined
       ∨ description burglary = VStr "").
Proof.
  apply (@description_shown_iff_nonempty sample_host burglary). reflexivity.
Defined.

Example description_present :
  (c ← @CrimeCard sample_host burglary; mret (description_slot c)) =
    inr (Some (Tag "p" None [Expr (VStr "Forced entry through a rear window")])).
Proof. by vm_compute. Qed.

Example description_absent :
  (c ← @CrimeCard sample_host theft; mret (description_slot c)) =
    inr (Some (Expr VUndefined)).
Proof. by vm_compute. Qed.

(** ** Rendering and state *)

Lemma render_last_frame s :
  last (frames (render s)) = Some (frame_of (cells s))
  ∧ crimes (cells (render s)) = crimes (cells s)
  ∧ loading (cells (render s)) = loading (cells s).
Proof.
  unfold render, frame_of.
  destruct (App_view _ _) as [e|view]; cbn [frames cells].
  - by rewrite last_snoc.
  - rewrite last_snoc. by destruct (effect_due _ _).
Qed.







(** ** A payload without data *)

(** C10.  When the status is a 2xx one and both [json.error] and
    [json.data] read as [undefined], as for a payload object with neither
    field, then on every schedule that lets the chain settle the second
    [then] has handed [undefined] to [setCrimes] without any check, no
    diagnostic has been logged, the state holds [undefined] in place of a
    sequence, and the next render throws where it reads
    [crimes.length]. *)
Theorem payload_without_data network evs res payload :
  network 0%nat = inr res →
  ok res = true →
  body res = Some payload →
  get_field payload "error" = inr VUndefined →
  get_field payload "data" = inr VUndefined →
  settled (run network evs unmounted) = true →
  settled (run network to_settlement unmounted) = true
  ∧ crimes (cells (run network evs unmounted)) = VUndefined
  ∧ loading (cells (run network evs unmounted)) = false
  ∧ journal (cells (run network evs unmounted)) =
      [Fetch "/api/crimes"; SetCrimes VUndefined; SetLoading false]
  ∧ logged (cells (run network evs unmounted)) = []
  ∧ get_length (crimes (cells (run network evs unmounted))) =
      inl (TypeError "Cannot read properties of undefined (reading 'length')")
  ∧ frame_of (cells (run network evs unmounted)) =
      inl (TypeError "Cannot read properties of undefined (reading 'length')")
  ∧ last (frames (render (run network evs unmounted))) =
      Some (inl (TypeError "Cannot read properties of undefined (reading 'length')")).
Proof.
  intros Hnet Hok Hbody Herr Hdata Hsettled.
  split; [apply to_settlement_settles|].
  destruct (render_last_frame (run network evs unmounted)) as (-> & _).
  rewrite (reached_settled_cells _ _ (schedule_reached network evs) Hsettled).
  rewrite Hnet.
  rewrite (final_of_success (inr res) VUndefined); [done|].
  by rewrite (verdict_success res payload VUndefined).
Qed.

Lemma payload_without_data_witness :
  let s := run (λ _, inr (respond 200 (obj [("count", VNum (Int 0))])))
             to_settlement unmounted in
  settled s = true
  ∧ crimes (cells s) = VUndefined
  ∧ loading (cells s) = false
  ∧ journal (cells s) = [Fetch "/api/crimes"; SetCrimes VUndefined; SetLoading false]
  ∧ logged (cells s) = []
  ∧ get_length (crimes (cells s)) =
      inl (TypeError "Cannot read properties of undefined (reading 'length')")
  ∧ frame_of (cells s) =
      inl (TypeError "Cannot read properties of undefined (reading 'length')")
  ∧ last (frames (render s)) =
      Some (inl (TypeError "Cannot read properties of undefined (reading 'length')")).
Proof.
  apply (payload_without_data
           (λ _, inr (respond 200 (obj [("count", VNum (Int 0))])))
           to_settlement
           (respond 200 (obj [("count", VNum (Int 0))]))
           (obj [("count", VNum (Int 0))]));
    reflexivity.
Defined.

(** * Further properties *)

(** ** The card on any value *)

Lemma CrimeCard_readable `{Host} crime :
  readable crime = true →
  ∃ card, CrimeCard crime = inr card
    ∧ upvote_counter card =
        Some (Expr (VNum (remainder (to_number (identifier crime)) 100)))
    ∧ comment_counter card =
        Some (Expr (VNum (add (remainder (to_number (identifier crime)) 5) 1)))
    ∧ description_slot card =
        Some (and_then (description crime) (Tag "p" None [Expr (description crime)])).
Proof.
  destruct crime; try done; intros _; (eexists; split; [reflexivity|]; by repeat split).
Qed.

(** X1.  [CrimeCard] throws the TypeError of reading [OBJECTID] when
    its [crime] prop is [null] or [undefined]; given any other value,
    an object or not, whose [OBJECTID] and [Occurred_Datetime] are
    scalar (so that neither [%] nor [new Date] has an object to convert)
    it returns a card. *)
Theorem card_throws_only_without_record `{Host} crime :
  scalar (field crime "OBJECTID") = true →
  scalar (field crime "Occurred_Datetime") = true →
  if readable crime
  then ∃ card, CrimeCard crime = inr card
         ∧ is_Some (upvote_counter card)
         ∧ is_Some (comment_counter card)
         ∧ is_Some (description_slot card)
  else CrimeCard crime =
         inl (TypeError ("Cannot read properties of " +:+ to_string crime
                         +:+ " (reading 'OBJECTID')")).
Proof.
  intros _ _. destruct (readable crime) eqn:Hr.
  - destruct (CrimeCard_readable crime Hr) as (card & Hcard & Hup & Hcm & Hslot).
    exists card. rewrite Hup, Hcm, Hslot. eauto.
  - by destruct crime.
Qed.

Lemma card_throws_only_without_record_witness :
  @CrimeCard sample_host VNull =
    inl (TypeError "Cannot read properties of null (reading 'OBJECTID')").
Proof.
  apply (@card_throws_only_without_record sample_host VNull); reflexivity.
Defined.

(** X2.  The counters of a card stay within fixed bounds: when the
    identifier converts to an integer [n], the upvote counter lies
    between -99 and 99 and the comment counter between -3 and 5, and for
    [n] not negative between 0 and 99 and between 1 and 5; when it
    converts to NaN both counters are NaN. *)
Theorem counters_bounded `{Host} crime :
  readable crime = true →
  ∃ card, CrimeCard crime = inr card
    ∧ match to_number (identifier crime) with
      | NaN =>
          upvote_counter card = Some (Expr (VNum NaN))
          ∧ comment_counter card = Some (Expr (VNum NaN))
      | Int n =>
          ∃ u c,
            upvote_counter card = Some (Expr (VNum (Int u)))
            ∧ comment_counter card = Some (Expr (VNum (Int c)))
            ∧ -99 ≤ u ≤ 99 ∧ -3 ≤ c ≤ 5
            ∧ (0 ≤ n → 0 ≤ u ∧ 1 ≤ c)
      end.
Proof.
  intros Hr. destruct (CrimeCard_readable crime Hr) as (card & Hcard & Hup & Hcm & _).
  exists card. split; [done|].
  destruct (to_number (identifier crime)) as [|n]; [done|].
  exists (Z.rem n 100), (Z.rem n 5 + 1). split; [done|]. split; [done|].
  pose proof (Z.rem_bound_abs n 100). pose proof (Z.rem_bound_abs n 5).
  repeat split; try lia.
  - pose proof (Z.rem_bound_pos n 100). lia.
  - pose proof (Z.rem_bound_pos n 5). lia.
Qed.

Lemma counters_bounded_witness :
  ∃ card, @CrimeCard sample_host burglary = inr card
    ∧ ∃ u c,
        upvote_counter card = Some (Expr (VNum (Int u)))
        ∧ comment_counter card = Some (Expr (VNum (Int c)))
        ∧ -99 ≤ u ≤ 99 ∧ -3 ≤ c ≤ 5
        ∧ (0 ≤ 207 → 0 ≤ u ∧ 1 ≤ c).
Proof.
  apply (@counters_bounded sample_host burglary). reflexivity.
Defined.

(** X3.  A record object without an [OBJECTID] field still gets a card:
    its element has no key and both of its counters are NaN. *)
Theorem card_without_identifier `{Host} fields :
  fields !! "OBJECTID" = None →
  card_of (VObj fields) = inr (CrimeCardElement None (VObj fields))
  ∧ ∃ card, CrimeCard (VObj fields) = inr card
      ∧ upvote_counter card = Some (Expr (VNum NaN))
      ∧ comment_counter card = Some (Expr (VNum NaN)).
Proof.
  intros Hid. split.
  - unfold card_of. cbn. by rewrite Hid.
  - destruct (CrimeCard_object fields) as (card & Hcard & Hup & Hcm & _).
    exists card. unfold identifier in Hup, Hcm. cbn in Hup, Hcm.
    rewrite Hid in Hup, Hcm. done.
Qed.

Lemma card_without_identifier_witness :
  card_of (obj [("Incident_Type", VStr "Theft")]) =
    inr (CrimeCardElement None (obj [("Incident_Type", VStr "Theft")]))
  ∧ ∃ card, @CrimeCard sample_host (obj [("Incident_Type", VStr "Theft")]) = inr card
      ∧ upvote_counter card = Some (Expr (VNum NaN))
      ∧ comment_counter card = Some (Expr (VNum NaN)).
Proof.
  apply (@card_without_identifier sample_host
           (list_to_map [("Incident_Type", VStr "Theft")])).
  reflexivity.
Defined.

(** X4.  For a record object with a scalar [OBJECTID] and
    [Occurred_Datetime], the description slot goes by the value of
    [DESCRIPTION], whatever its type: when the field is absent, [null],
    [false], 0, NaN or the empty string, that value itself is the child
    in the slot (so that a 0 or a NaN is handed to React as text of the
    card); any other value gives the paragraph holding it. *)
Theorem description_slot_by_value `{Host} fields :
  scalar (field (VObj fields) "OBJECTID") = true →
  scalar (field (VObj fields) "Occurred_Datetime") = true →
  ∃ card, CrimeCard (VObj fields) = inr card
    ∧ description_slot card =
        Some (match fields !! "DESCRIPTION" with
              | None | Some VUndefined => Expr VUndefined
              | Some VNull => Expr VNull
              | Some (VBool false) => Expr (VBool false)
              | Some (VNum NaN) => Expr (VNum NaN)
              | Some (VNum (Int 0)) => Expr (VNum (Int 0))
              | Some (VStr EmptyString) => Expr (VStr "")
              | Some v => Tag "p" None [Expr v]
              end).
Proof.
  intros _ _.
  destruct (CrimeCard_object fields) as (card & Hcard & _ & _ & Hslot).
  exists card. split; [done|]. rewrite Hslot. f_equal.
  unfold description, and_then. cbn.
  destruct (fields !! "DESCRIPTION") as [[| |[]|[|[| |]]|[|c s]| |]|]; reflexivity.
Qed.

Lemma description_slot_by_value_witness :
  ∃ card,
    @CrimeCard sample_host (obj [("OBJECTID", VNum (Int 7)); ("DESCRIPTION", VNum (Int 0))]) =
      inr card
    ∧ description_slot card = Some (Expr (VNum (Int 0))).
Proof.
  exact (@description_slot_by_value sample_host
           (list_to_map [("OBJECTID", VNum (Int 7)); ("DESCRIPTION", VNum (Int 0))])
           eq_refl eq_refl).
Defined.

(** ** The feed on any state *)

(** X5.  With [loading] false and an array in the state whose items
    have scalar identifiers (so that no key has an object to convert),
    the render throws exactly when the array holds a [null] or
    [undefined], with the TypeError of the first such element; otherwise
    the feed is the empty-state message for the empty array and one
    keyed card element per item for any other. *)
Theorem feed_of_array records :
  scalar_identifiers (VArr records) = true →
  feed (VArr records) false =
    match List.find (λ r, negb (readable r)) records with
    | None =>
        inr (match records with
             | [] => [empty_message]
             | _ => item_view <$> records
             end)
    | Some r =>
        inl (TypeError ("Cannot read properties of " +:+ to_string r
                        +:+ " (reading 'OBJECTID')"))
    end.
Proof.
  intros _. destruct records as [|r rest]; [done|].
  unfold feed.
  cbn [get_length mbind exn_bind List.length Z.of_nat is_zero array_map].
  apply map_card_of_find.
Qed.

Lemma feed_of_array_witness :
  feed (VArr [theft; VNull; VUndefined]) false =
    inl (TypeError "Cannot read properties of null (reading 'OBJECTID')").
Proof.
  apply (feed_of_array [theft; VNull; VUndefined]). reflexivity.
Defined.

(** X6.  When a successful response carries a [data] that is no array,
    the state takes it as it is and nothing is logged.  Once the chain
    has settled the render never shows cards: it shows the empty-state
    message exactly when the [length] of the value is 0 (the empty
    string, or an object with a [length] field that is 0), and otherwise
    it throws, a TypeError for reading [length] if the value is [null] or
    [undefined] and for calling [map] if it is anything else. *)
Theorem data_that_is_no_array network evs res payload err data :
  network 0%nat = inr res →
  ok res = true →
  body res = Some payload →
  get_field payload "error" = inr err →
  truthy err = false →
  get_field payload "data" = inr data →
  (∀ items, data ≠ VArr items) →
  settled (run network evs unmounted) = true →
  crimes (cells (run network evs unmounted)) = data
  ∧ logged (cells (run network evs unmounted)) = []
  ∧ frame_of (cells (run network evs unmounted)) =
      (if reads_empty data then inr (page [empty_message])
       else if readable data then inl (TypeError "crimes.map is not a function")
       else inl (TypeError ("Cannot read properties of " +:+ to_string data
                            +:+ " (reading 'length')"))).
Proof.
  intros Hnet Hok Hbody Herr Hfalsy Hdata Hnoarr Hsettled.
  rewrite (reached_settled_cells _ _ (schedule_reached network evs) Hsettled).
  rewrite Hnet.
  rewrite (final_of_success (inr res) data)
    by (by rewrite (verdict_success res payload err)).
  split; [done|]. split; [done|].
  unfold frame_of, App_view, feed. cbn [crimes loading].
  destruct data as [| |b|n|s|items|fields]; cbn; try done.
  - by destruct s.
  - by destruct (Hnoarr items).
  - by destruct (fields !! "length") as [[| | |[|[| |]]| | |]|].
Qed.

Lemma data_that_is_no_array_witness :
  let s := run (λ _, inr (respond 200 (obj [("data", obj [("length", VNum (Int 0))])])))
             to_settlement unmounted in
  crimes (cells s) = obj [("length", VNum (Int 0))]
  ∧ logged (cells s) = []
  ∧ frame_of (cells s) = inr (page [empty_message]).
Proof.
  apply (data_that_is_no_array
           (λ _, inr (respond 200 (obj [("data", obj [("length", VNum (Int 0))])])))
           to_settlement
           (respond 200 (obj [("data", obj [("length", VNum (Int 0))])]))
           (obj [("data", obj [("length", VNum (Int 0))])]) VUndefined
           (obj [("length", VNum (Int 0))]));
    try reflexivity.
  intros items. discriminate.
Defined.

(** The other branch: a [data] that is a non-empty string. *)
Example data_string_throws :
  frame_of (cells (lifecycle (inr (respond 200 (obj [("data", VStr "none")]))))) =
    inl (TypeError "crimes.map is not a function").
Proof. by vm_compute. Qed.

(** ** After settlement *)

Lemma reached_settled_step network ev s :
  reached (network 0%nat) s → settled s = true →
  settled (step network ev s) = true.
Proof.
  destruct 1 as [|c ph n Hstage Hpending|n m]; cbn [settled chains]; try done.
  - destruct ph; try done. by destruct (Hpending r).
  - intros _. destruct ev as [|[|i]]; [|done..].
    cbn [step]. by rewrite render_mounted.
Qed.

(** X7.  Settlement is final: once the chain has settled, no further
    render or reaction changes the state cells or the journal, the chain
    stays settled, and [loading] stays false. *)
Theorem settlement_is_final network evs more :
  settled (run network evs unmounted) = true →
  settled (run network (evs ++ more) unmounted) = true
  ∧ cells (run network (evs ++ more) unmounted) = cells (run network evs unmounted)
  ∧ loading (cells (run network (evs ++ more) unmounted)) = false.
Proof.
  intros Hsettled.
  assert (Hlater : settled (run network (evs ++ more) unmounted) = true).
  { rewrite run_app.
    pose proof (schedule_reached network evs) as Hreached.
    revert Hreached Hsettled. generalize (run network evs unmounted).
    induction more as [|ev more IH]; intros s Hreached Hsettled; [done|].
    cbn. apply IH; [by apply step_reached | by apply reached_settled_step]. }
  split; [done|].
  rewrite (reached_settled_cells _ _ (schedule_reached network (evs ++ more)) Hlater).
  rewrite (reached_settled_cells _ _ (schedule_reached network evs) Hsettled).
  split; [done|]. by destruct (final_facts (network 0%nat)) as (? & _).
Qed.

Lemma settlement_is_final_witness :
  let network := λ _ : nat, inr (respond 200 (obj [("data", VArr [theft])])) in
  let more := [Tick 0; Render; Tick 1; Tick 0; Render]%nat in
  settled (run network (to_settlement ++ more) unmounted) = true
  ∧ cells (run network (to_settlement ++ more) unmounted) =
      cells (run network to_settlement unmounted)
  ∧ loading (cells (run network (to_settlement ++ more) unmounted)) = false.
Proof.
  apply (settlement_is_final
           (λ _, inr (respond 200 (obj [("data", VArr [theft])])))
           to_settlement [Tick 0; Render; Tick 1; Tick 0; Render]%nat).
  reflexivity.
Defined.

(** ** The status comes first *)

(** X8.  A status outside 200..299 hides the body: whatever the body is,
    a payload with records or no JSON at all, the state ends with no
    records, the empty-state message is rendered, and the one diagnostic
    logged is the error [HTTP] followed by the status. *)
Theorem status_hides_body network evs res :
  network 0%nat = inr res →
  status res < 200 ∨ 299 < status res →
  settled (run network evs unmounted) = true →
  crimes (cells (run network evs unmounted)) = VArr []
  ∧ logged (cells (run network evs unmounted)) =
      [Error ("HTTP " +:+ pretty (status res))]
  ∧ frame_of (cells (run network evs unmounted)) = inr (page [empty_message]).
Proof.
  intros Hnet Hstatus Hsettled.
  rewrite (reached_settled_cells _ _ (schedule_reached network evs) Hsettled).
  rewrite Hnet.
  assert (Hok : ok res = false).
  { unfold ok. apply andb_false_iff. rewrite !Z.leb_gt. lia. }
  pose proof (transport_error res Hok) as Hfail%failure_verdict.
  by rewrite (final_of_failure _ _ Hfail).
Qed.

Lemma status_hides_body_witness :
  let s := run (λ _, inr (respond 304 (obj [("data", VArr [theft])])))
             to_settlement unmounted in
  crimes (cells s) = VArr []
  ∧ logged (cells s) = [Error "HTTP 304"]
  ∧ frame_of (cells s) = inr (page [empty_message]).
Proof.
  apply (status_hides_body
           (λ _, inr (respond 304 (obj [("data", VArr [theft])])))
           to_settlement (respond 304 (obj [("data", VArr [theft])])));
    [reflexivity | right; reflexivity | reflexivity].
Defined.

(** ** Keys *)

Lemma integer_key_inj a b :
  react_key (VNum (Int a)) = react_key (VNum (Int b)) → a = b.
Proof. cbn. intros [= Hkey]. by apply (inj pretty) in Hkey. Qed.

(** X9.  Records whose [OBJECTID]s are pairwise distinct integers get
    pairwise distinct keys. *)
Theorem distinct_identifiers_distinct_keys records ids :
  identifier <$> records = (λ n, VNum (Int n)) <$> ids →
  NoDup ids →
  NoDup ((λ r, react_key (identifier r)) <$> records).
Proof.
  intros Hids Hnodup.
  rewrite (list_fmap_compose identifier react_key), Hids, <- list_fmap_compose.
  apply NoDup_fmap_2; [|done].
  intros a b. apply integer_key_inj.
Qed.

Lemma distinct_identifiers_distinct_keys_witness :
  NoDup ((λ r, react_key (identifier r)) <$> [theft; burglary]).
Proof.
  apply (distinct_identifiers_distinct_keys [theft; burglary] [1; 207]).
  - reflexivity.
  - apply (bool_decide_unpack (NoDup [1; 207])). vm_compute. exact I.
Defined.

(** ** The whole page *)

Lemma valid_child_scalar v : scalar v = true → valid_child v = true.
Proof. by destruct v. Qed.

Lemma CrimeCard_plain `{Host} r :
  plain_record r = true →
  ∃ card, CrimeCard r = inr card ∧ check_children card = inr card.
Proof.
  unfold plain_record. cbn [forallb].
  intros (Hr & (Hid & (Htype & (Hdate & (Haddr & (Hcase & (Hdesc & _)
    %andb_prop)%andb_prop)%andb_prop)%andb_prop)%andb_prop)%andb_prop)%andb_prop.
  apply valid_child_scalar in Htype, Haddr, Hcase, Hdesc. clear Hid Hdate.
  assert (Hget : ∀ name, get_field r name = inr (field r name)).
  { intros name. unfold field. by rewrite (get_field_readable r name Hr). }
  unfold CrimeCard. rewrite !Hget. cbn [mbind exn_bind mret exn_ret].
  eexists. split; [reflexivity|].
  unfold and_then.
  destruct (truthy (field r "DESCRIPTION"));
    cbn; rewrite ?Htype, ?Haddr, ?Hcase, ?Hdesc; reflexivity.
Qed.

Lemma map_expand_plain `{Host} records :
  forallb plain_record records = true →
  ∃ cards, map_throwing expand (item_view <$> records) = inr cards
    ∧ Forall2 (λ r card, CrimeCard r = inr card) records cards.
Proof.
  induction records as [|r rest IH]; [by exists []|].
  cbn [forallb]. intros [Hr Hrest]%andb_prop.
  destruct (IH Hrest) as (cards & Hcards & Hall).
  destruct (CrimeCard_plain r Hr) as (card & Hcard & Hchecked).
  exists (card :: cards). cbn [fmap list_fmap map_throwing]. rewrite Hcards.
  cbn [item_view expand]. rewrite Hcard. cbn [mbind exn_bind]. rewrite Hchecked.
  split; [done|]. by constructor.
Qed.

Lemma plain_record_readable records :
  forallb plain_record records = true → forallb readable records = true.
Proof.
  induction records as [|r rest IH]; [done|].
  cbn [forallb]. intros [Hr Hrest]%andb_prop.
  rewrite (IH Hrest). unfold plain_record in Hr.
  by apply andb_prop in Hr as [-> _].
Qed.

(** X10.  A populated state renders all the way down: with [loading]
    false and in the state a non-empty array of records whose displayed
    fields are scalar or absent, React renders every [CrimeCard] element
    of the page and accepts every child without throwing, and the feed
    holds, in the order of the records, the card of each record. *)
Theorem populated_page_paints `{Host} c records :
  crimes c = VArr records →
  loading c = false →
  records ≠ [] →
  forallb plain_record records = true →
  ∃ cards, paint c = inr (page cards)
    ∧ Forall2 (λ r card, CrimeCard r = inr card) records cards
    ∧ List.length cards = List.length records.
Proof.
  intros Hcrimes Hloading Hne Hplain.
  destruct (map_expand_plain records Hplain) as (cards & Hcards & Hall).
  exists cards. split; [|split; [done|]].
  - unfold paint, frame_of, App_view. rewrite Hcrimes, Hloading.
    rewrite (feed_records records (plain_record_readable records Hplain)).
    destruct records as [|r rest]; [done|].
    cbn [mbind exn_bind mret exn_ret page expand map_throwing].
    by rewrite Hcards.
  - symmetry. by eapply Forall2_length.
Qed.

Lemma populated_page_paints_witness :
  ∃ cards,
    @paint sample_host
      {| crimes := VArr [theft; burglary]; loading := false; journal := [] |} =
      inr (page cards)
    ∧ Forall2 (λ r card, @CrimeCard sample_host r = inr card) [theft; burglary] cards
    ∧ List.length cards = 2%nat.
Proof.
  apply (@populated_page_paints sample_host
           {| crimes := VArr [theft; burglary]; loading := false; journal := [] |}
           [theft; burglary]);
    [reflexivity | reflexivity | discriminate | reflexivity].
Defined.

(** A record with a field that is an object: the card is returned, and
    React throws on the child. *)
Example object_field_throws :
  @paint sample_host
    {| crimes := VArr [obj [("OBJECTID", VNum (Int 3)); ("Block_Address", obj [])]];
       loading := false; journal := [] |} = inl invalid_child.
Proof. by vm_compute. Qed.

(** ** CrimeFeed *)

(** X11.  [CrimeFeed] and the populated mode of [App] agree: for an
    array of records [CrimeFeed] returns a container whose children are
    the very card elements, keys included, that [App] puts in its feed
    for a non-empty array.  For the empty array they differ: [CrimeFeed]
    returns the empty container, [App] the empty-state message. *)
Theorem CrimeFeed_matches_App records :
  forallb readable records = true →
  CrimeFeed (VArr records) =
    inr (Tag "div" (Some "crime-feed") (item_view <$> records))
  ∧ feed (VArr records) false =
      inr (match records with
           | [] => [empty_message]
           | _ => item_view <$> records
           end)
  ∧ CrimeFeed (VArr []) = inr (Tag "div" (Some "crime-feed") []).
Proof.
  intros Hr. split; [|split; [by apply feed_records|done]].
  unfold CrimeFeed. cbn [get_field mbind exn_bind array_map].
  by rewrite (map_card_of records Hr).
Qed.

Lemma CrimeFeed_matches_App_witness :
  CrimeFeed (VArr [theft; burglary]) =
    inr (Tag "div" (Some "crime-feed") (item_view <$> [theft; burglary]))
  ∧ feed (VArr [theft; burglary]) false = inr (item_view <$> [theft; burglary])
  ∧ CrimeFeed (VArr []) = inr (Tag "div" (Some "crime-feed") []).
Proof.
  apply (CrimeFeed_matches_App [theft; burglary]). reflexivity.
Defined.

(** X12.  [CrimeFeed] has no guard of its own.  For a [crimes] prop
    whose items, if it is an array, have scalar identifiers: it throws on
    [null] and [undefined] (reading [map]), on any other value that is
    no array (calling [map]), and on an array that holds a [null] or
    [undefined] (reading [OBJECTID] of the first one); on every other
    array it returns the container with one keyed card element per
    item. *)
Theorem CrimeFeed_throws crimes :
  scalar_identifiers crimes = true →
  CrimeFeed crimes =
    match crimes with
    | VArr records =>
        match List.find (λ r, negb (readable r)) records with
        | None => inr (Tag "div" (Some "crime-feed") (item_view <$> records))
        | Some r =>
            inl (TypeError ("Cannot read properties of " +:+ to_string r
                            +:+ " (reading 'OBJECTID')"))
        end
    | VUndefined | VNull =>
        inl (TypeError ("Cannot read properties of " +:+ to_string crimes
                        +:+ " (reading 'map')"))
    | _ => inl (TypeError "crimes.map is not a function")
    end.
Proof.
  intros _. destruct crimes as [| |b|n|s|records|fields]; try done.
  unfold CrimeFeed. cbn [get_field mbind exn_bind array_map].
  rewrite map_card_of_find. by destruct (List.find _ records).
Qed.

Lemma CrimeFeed_throws_witness :
  CrimeFeed VUndefined =
    inl (TypeError "Cannot read properties of undefined (reading 'map')").
Proof.
  apply (CrimeFeed_throws VUndefined). reflexivity.
Defined.

(** ** Outcomes *)

(** X13.  Every answer of the network ends in exactly one of two ways.
    Either it is one of the failure outcomes: then the journal of the
    settled chain is the request, one logged diagnostic, [setCrimes([])]
    and [setLoading(false)].  Or it is none of them: then the journal is
    the request, one [setCrimes] with the [data] of the payload, and
    [setLoading(false)], and nothing is logged. *)
Theorem outcome_is_failure_or_success answer :
  (∃ e, failure answer e
     ∧ final answer =
         {| crimes := VArr []; loading := false;
            journal := [Fetch "/api/crimes"; ConsoleError e; SetCrimes (VArr []);
                        SetLoading false] |})
  ∨ (∃ res payload data,
       answer = inr res ∧ body res = Some payload
       ∧ get_field payload "data" = inr data
       ∧ (∀ e, ¬ failure answer e)
       ∧ final answer =
           {| crimes := data; loading := false;
              journal := [Fetch "/api/crimes"; SetCrimes data; SetLoading false] |}).
Proof.
  destruct (verdict answer) as [e|data] eqn:Hv.
  - left. exists e. split; [by apply failure_verdict|by apply final_of_failure].
  - right.
    assert (Hnone : ∀ e, ¬ failure answer e).
    { intros e Hf%failure_verdict. congruence. }
    destruct answer as [e|res]; [done|].
    destruct (ok res) eqn:Hok.
    2:{ destruct (Hnone _ (transport_error res Hok)). }
    destruct (json res) as [e|payload] eqn:Hjson.
    { destruct (Hnone _ (decode_error res e Hok Hjson)). }
    assert (Hbody : body res = Some payload).
    { unfold json in Hjson. by destruct (body res); simplify_eq. }
    destruct (get_field payload "error") as [e|err] eqn:Herr.
    { destruct (Hnone _ (unreadable_payload res payload e Hok Hbody Herr)). }
    destruct (truthy err) eqn:Htruthy.
    { destruct (Hnone _ (application_error res payload err Hok Hbody Herr Htruthy)). }
    rewrite (verdict_success res payload err Hok Hbody Herr Htruthy) in Hv.
    exists res, payload, data. repeat split; try done.
    apply final_of_success. by rewrite (verdict_success res payload err).
Qed.

(** ** parseInt reads back what a vote writes *)

Lemma digit_in_pretty d :
  (d < 10)%N → digit_in 10 (pretty_N_char d) = Some d.
Proof.
  intros Hd.
  assert (d = 0 ∨ d = 1 ∨ d = 2 ∨ d = 3 ∨ d = 4 ∨ d = 5 ∨ d = 6 ∨ d = 7
          ∨ d = 8 ∨ d = 9)%N as Hcases by lia.
  by repeat destruct Hcases as [->|Hcases]; [..|subst d].
Qed.

Lemma accumulate_pretty x s acc :
  ∃ k, accumulate 10 acc (pretty_N_go x s) = accumulate 10 (acc * 10 ^ k + x)%N s.
Proof.
  revert s. induction (N.lt_wf_0 x) as [x _ IH]. intros s.
  destruct (decide (x = 0)%N) as [->|Hx].
  { exists 0%N. rewrite pretty_N_go_0. f_equal. lia. }
  rewrite pretty_N_go_step by lia.
  destruct (IH (x `div` 10)%N) with (s := String (pretty_N_char (x `mod` 10)) s)
    as [k Hk].
  { apply N.div_lt; lia. }
  exists (k + 1)%N. rewrite Hk. cbn [accumulate].
  rewrite digit_in_pretty by (apply N.mod_lt; lia).
  f_equal. rewrite N.pow_add_r.
  pose proof (N.div_mod x 10). lia.
Qed.

Lemma string_app_cons c s t : String c s +:+ t = String c (s +:+ t).
Proof. reflexivity. Qed.

Lemma string_app_assoc s t u : (s +:+ t) +:+ u = s +:+ (t +:+ u).
Proof.
  induction s as [|c s IH]; [done|]. by rewrite !string_app_cons, IH.
Qed.

Lemma string_app_nil_r s : s +:+ "" = s.
Proof. induction s as [|c s IH]; [done|]. by rewrite string_app_cons, IH. Qed.

Lemma pretty_N_go_app x s : pretty_N_go x s = pretty_N_go x "" +:+ s.
Proof.
  revert s. induction (N.lt_wf_0 x) as [x _ IH]. intros s.
  destruct (decide (x = 0)%N) as [->|Hx]; [by rewrite !pretty_N_go_0|].
  assert (Hlt : (x `div` 10 < x)%N) by (apply N.div_lt; lia).
  rewrite !(pretty_N_go_step x) by lia.
  rewrite (IH _ Hlt (String _ s)), (IH _ Hlt (String _ "")).
  by rewrite string_app_assoc.
Qed.

Lemma pretty_N_go_head x s :
  (0 < x)%N →
  ∃ d t, (1 ≤ d ≤ 9)%N ∧ pretty_N_go x s = String (pretty_N_char d) t.
Proof.
  revert s. induction (N.lt_wf_0 x) as [x _ IH]. intros s Hx.
  rewrite pretty_N_go_step by done.
  destruct (decide (x < 10)%N) as [Hsmall|Hbig].
  - exists x, s. split; [lia|].
    rewrite N.div_small, N.mod_small, pretty_N_go_0 by done. done.
  - apply IH; [apply N.div_lt; lia|].
    apply N.div_str_pos. lia.
Qed.

Lemma parseInt_leading_digit d t :
  (1 ≤ d ≤ 9)%N →
  parseInt (String (pretty_N_char d) t) =
    Int (Z.of_N (accumulate 10 0 (String (pretty_N_char d) t)))
  ∧ parseInt (String "-" (String (pretty_N_char d) t)) =
    Int (- Z.of_N (accumulate 10 0 (String (pretty_N_char d) t))).
Proof.
  intros Hd.
  assert (d = 1 ∨ d = 2 ∨ d = 3 ∨ d = 4 ∨ d = 5 ∨ d = 6 ∨ d = 7
          ∨ d = 8 ∨ d = 9)%N as Hcases by lia.
  by repeat destruct Hcases as [->|Hcases]; [..|subst d].
Qed.

(** The digits of a positive number, followed by something that is
    neither a digit nor a letter, read back as the number. *)
Lemma parseInt_positive p rest :
  rest = "" ∨ (∃ c r, rest = String c r ∧ digit_value c = None) →
  parseInt (pretty (N.pos p) +:+ rest) = Int (Z.pos p)
  ∧ parseInt ("-" +:+ pretty (N.pos p) +:+ rest) = Int (Z.neg p).
Proof.
  intros Hrest.
  assert (Hpretty : pretty (N.pos p) +:+ rest = pretty_N_go (N.pos p) rest).
  { unfold pretty, pretty_N. rewrite decide_False by done.
    by rewrite <- pretty_N_go_app. }
  rewrite Hpretty.
  destruct (pretty_N_go_head (N.pos p) rest) as (d & t & Hd & Hhead); [lia|].
  destruct (parseInt_leading_digit d t Hd) as [Hplus Hminus].
  assert (Hacc : accumulate 10 0 (pretty_N_go (N.pos p) rest) = N.pos p).
  { destruct (accumulate_pretty (N.pos p) rest 0) as [k ->].
    rewrite N.mul_0_l, N.add_0_l.
    destruct Hrest as [->|(c & r & -> & Hc)]; [done|].
    cbn [accumulate]. unfold digit_in. by rewrite Hc. }
  change ("-" +:+ pretty_N_go (N.pos p) rest)
    with (String "-" (pretty_N_go (N.pos p) rest)).
  rewrite Hhead, Hplus, Hminus, <- Hhead, Hacc. done.
Qed.

(** [parseInt(String(n)) = n] on integers. *)
Lemma parseInt_to_string n : parseInt (to_string (VNum (Int n))) = Int n.
Proof.
  cbn [to_string]. destruct n as [|p|p]; [done|..].
  - destruct (parseInt_positive p "") as [Hplus _]; [by left|].
    change (pretty (Z.pos p)) with (pretty (N.pos p)).
    by rewrite <- Hplus, string_app_nil_r.
  - destruct (parseInt_positive p "") as [_ Hminus]; [by left|].
    change (pretty (Z.neg p)) with ("-" +:+ pretty (N.pos p)).
    by rewrite <- Hminus, string_app_nil_r.
Qed.

(** ** The document *)

Lemma tree_induction (P : Dom.tree → Prop) :
  (∀ data, P (Dom.Text data)) →
  (∀ tag classes children, Forall P children → P (Dom.Element tag classes children)) →
  ∀ n, P n.
Proof.
  intros Htext Helem. fix IH 1. intros [data|tag classes children].
  - apply Htext.
  - apply Helem. induction children as [|c rest IHrest]; constructor.
    + apply IH.
    + apply IHrest.
Qed.

Section update.
Variable f : Dom.tree → Dom.tree.
Hypothesis f_classes : ∀ cls n, Dom.has_class cls (f n) = Dom.has_class cls n.

Lemma at_path_update p n :
  Dom.at_path p (Dom.update p f n) = f <$> Dom.at_path p n.
Proof using Type.
  revert n. induction p as [|i rest IH]; intros n; [done|].
  destruct n as [data|tag classes children]; [done|].
  cbn [Dom.at_path Dom.update]. rewrite list_lookup_alter_eq.
  destruct (children !! i) as [c|]; [|done]. cbn. apply IH.
Qed.

Lemma at_path_update_apart p q n :
  ¬ p `prefix_of` q → ¬ q `prefix_of` p →
  Dom.at_path q (Dom.update p f n) = Dom.at_path q n.
Proof using Type.
  revert q n. induction p as [|i p IH]; intros q n Hpq Hqp.
  { destruct Hpq. apply prefix_nil. }
  destruct q as [|j q]; [destruct Hqp; apply prefix_nil|].
  destruct n as [data|tag classes children]; [done|].
  cbn [Dom.at_path Dom.update].
  destruct (decide (i = j)) as [->|Hij].
  - rewrite list_lookup_alter_eq.
    destruct (children !! j) as [c|]; [|done]. cbn.
    apply IH; intros Hpre; [apply Hpq|apply Hqp]; by apply prefix_cons.
  - by rewrite list_lookup_alter_ne.
Qed.

Lemma at_path_update_below p rel n :
  Dom.at_path p (Dom.update (p ++ rel) f n) = Dom.update rel f <$> Dom.at_path p n.
Proof using Type.
  revert n. induction p as [|i p IH]; intros n; [done|].
  destruct n as [data|tag classes children]; [done|].
  cbn [Dom.at_path Dom.update app]. rewrite list_lookup_alter_eq.
  destruct (children !! i) as [c|]; [|done]. cbn. apply IH.
Qed.

Lemma has_class_update cls p n :
  Dom.has_class cls (Dom.update p f n) = Dom.has_class cls n.
Proof using f_classes.
  destruct p as [|i p]; [apply f_classes|]. by destruct n.
Qed.

(** A node that does not lie strictly below [p] is still there after
    the update at [p], with its classes. *)
Lemma classes_update cls p q n :
  ¬ strictly_below p q →
  Dom.has_class cls <$> Dom.at_path q (Dom.update p f n) =
  Dom.has_class cls <$> Dom.at_path q n.
Proof using f_classes.
  revert p n. induction q as [|j q IH]; intros p n Hbelow.
  { cbn. f_equal. apply has_class_update. }
  destruct p as [|i p]; [destruct Hbelow; by exists j, q|].
  destruct n as [data|tag classes children]; [done|].
  cbn [Dom.at_path Dom.update].
  destruct (decide (i = j)) as [->|Hij].
  - rewrite list_lookup_alter_eq.
    destruct (children !! j) as [c|]; [|done]. cbn.
    apply IH. intros (k & rest & ->). apply Hbelow. by exists k, rest.
  - by rewrite list_lookup_alter_ne.
Qed.

Lemma closest_update cls p this n :
  ¬ strictly_below p this →
  Dom.closest cls (Dom.update p f n) this = Dom.closest cls n this.
Proof using f_classes.
  revert p n. induction this as [|j this IH]; intros p n Hbelow.
  { cbn. by rewrite has_class_update. }
  destruct p as [|i p]; [destruct Hbelow; by exists j, this|].
  destruct n as [data|tag classes children]; [done|].
  cbn [Dom.closest Dom.update].
  destruct (decide (i = j)) as [->|Hij].
  - rewrite list_lookup_alter_eq.
    destruct (children !! j) as [c|]; [|done]. cbn.
    rewrite IH; [done|].
    intros (k & rest & ->). apply Hbelow. by exists k, rest.
  - by rewrite list_lookup_alter_ne.
Qed.

Lemma first_match_update cls i children rel :
  Forall (λ c, ∀ rel, Dom.query_selector cls c = Some rel →
                 Dom.query_selector cls (Dom.update rel f c) = Some rel) children →
  Dom.first_match cls (Dom.query_selector cls) i children = Some rel →
  ∃ k q, rel = (i + k)%nat :: q
    ∧ Dom.first_match cls (Dom.query_selector cls) i
        (alter (Dom.update q f) k children) = Some rel.
Proof using f_classes.
  intros Hall. revert i rel.
  induction Hall as [|c rest Hc _ IH]; intros i rel; [done|].
  cbn [Dom.first_match]. destruct (Dom.has_class cls c) eqn:Hcls.
  { intros [= <-]. exists 0%nat, []. rewrite Nat.add_0_r. split; [done|].
    cbn. by rewrite f_classes, Hcls. }
  destruct (Dom.query_selector cls c) as [q|] eqn:Hq.
  { intros [= <-]. exists 0%nat, q. rewrite Nat.add_0_r. split; [done|].
    cbn. by rewrite has_class_update, Hcls, (Hc q eq_refl). }
  intros Hrest. destruct (IH (S i) rel Hrest) as (k & q & -> & Hfound).
  exists (S k), q. split; [f_equal; lia|].
  cbn. by rewrite Hcls, Hq.
Qed.

Lemma query_selector_update cls n rel :
  Dom.query_selector cls n = Some rel →
  Dom.query_selector cls (Dom.update rel f n) = Some rel.
Proof using f_classes.
  revert rel. induction n as [data|tag classes children IH] using tree_induction;
    intros rel; [done|].
  cbn [Dom.query_selector]. intros Hfound.
  destruct (first_match_update cls 0 children rel IH Hfound) as (k & q & -> & Hk).
  done.
Qed.
End update.

Lemma set_text_content_classes s cls n :
  Dom.has_class cls (Dom.set_text_content s n) = Dom.has_class cls n.
Proof. by destruct n. Qed.

Lemma text_content_set s n cls :
  Dom.has_class cls n = true →
  Dom.text_content (Dom.set_text_content s n) = s.
Proof.
  destruct n as [data|tag classes children]; [done|]. intros _. cbn.
  destruct (String.eqb_spec s "") as [->|_]; [done|]. done.
Qed.

Lemma first_match_sound cls i children rel :
  Forall (λ c, ∀ rel, Dom.query_selector cls c = Some rel →
                 ∃ el, Dom.at_path rel c = Some el ∧ Dom.has_class cls el = true)
         children →
  Dom.first_match cls (Dom.query_selector cls) i children = Some rel →
  ∃ k q c el, rel = (i + k)%nat :: q ∧ children !! k = Some c
    ∧ Dom.at_path q c = Some el ∧ Dom.has_class cls el = true.
Proof.
  intros Hall. revert i rel.
  induction Hall as [|c rest Hc _ IH]; intros i rel; [done|].
  cbn [Dom.first_match]. destruct (Dom.has_class cls c) eqn:Hcls.
  { intros [= <-]. exists 0%nat, [], c, c. by rewrite Nat.add_0_r. }
  destruct (Dom.query_selector cls c) as [q|] eqn:Hq.
  { intros [= <-]. destruct (Hc q eq_refl) as (el & Hel & Hclass).
    exists 0%nat, q, c, el. by rewrite Nat.add_0_r. }
  intros Hrest. destruct (IH (S i) rel Hrest) as (k & q & c' & el & -> & ? & ? & ?).
  exists (S k), q, c', el. split; [f_equal; lia|done].
Qed.

(** What [querySelector] finds is a descendant that has the class. *)
Lemma query_selector_sound cls n rel :
  Dom.query_selector cls n = Some rel →
  ∃ el, Dom.at_path rel n = Some el ∧ Dom.has_class cls el = true.
Proof.
  revert rel. induction n as [data|tag classes children IH] using tree_induction;
    intros rel; [done|].
  cbn [Dom.query_selector]. intros Hfound.
  destruct (first_match_sound cls 0 children rel IH Hfound)
    as (k & q & c & el & -> & Hc & Hel & Hclass).
  exists el. split; [|done]. cbn. by rewrite Hc.
Qed.

Lemma first_match_none cls i children :
  Forall (λ c, Dom.has_class cls c = false ∧ Dom.query_selector cls c = None) children →
  Dom.first_match cls (Dom.query_selector cls) i children = None.
Proof.
  intros Hall. revert i. induction Hall as [|c rest [Hcls Hq] _ IH]; intros i; [done|].
  cbn. by rewrite Hcls, Hq.
Qed.

(** [querySelector] finds nothing only if no descendant has the
    class. *)
Lemma query_selector_complete cls n :
  (∀ i rest el, Dom.at_path (i :: rest) n = Some el → Dom.has_class cls el = false) →
  Dom.query_selector cls n = None.
Proof.
  induction n as [data|tag classes children IH] using tree_induction; [done|].
  intros Hnone. cbn [Dom.query_selector]. apply first_match_none.
  apply Forall_lookup_2. intros k c Hk.
  rewrite Forall_lookup in IH. split.
  - apply (Hnone k [] c). cbn. by rewrite Hk.
  - apply (IH k c Hk). intros i rest el Hel.
    apply (Hnone k (i :: rest) el). cbn [Dom.at_path]. by rewrite Hk.
Qed.

(** What [closest] finds is the element or an ancestor of it that has the
    class. *)
Lemma closest_sound cls n this q :
  Dom.closest cls n this = Some q →
  q `prefix_of` this
  ∧ ∃ el, Dom.at_path q n = Some el ∧ Dom.has_class cls el = true.
Proof.
  revert n q. induction this as [|i this IH]; intros n q.
  { cbn. destruct (Dom.has_class cls n) eqn:Hcls; [|done].
    intros [= <-]. split; [done|]. by exists n. }
  destruct n as [data|tag classes children]; [done|].
  cbn [Dom.closest]. destruct (children !! i) as [c|] eqn:Hc; [|done].
  destruct (Dom.closest cls c this) as [q'|] eqn:Hq'.
  - intros [= <-]. destruct (IH c q' Hq') as (Hpre & el & Hel & Hclass).
    split; [by apply prefix_cons|]. exists el. cbn. by rewrite Hc.
  - destruct (Dom.has_class cls _) eqn:Hcls; [|done].
    intros [= <-]. split; [apply prefix_nil|]. by eexists.
Qed.

(** [closest] finds nothing only if neither the element nor any of its
    ancestors has the class. *)
Lemma closest_complete cls n this button :
  Dom.at_path this n = Some button →
  (∀ q el, q `prefix_of` this → Dom.at_path q n = Some el →
           Dom.has_class cls el = false) →
  Dom.closest cls n this = None.
Proof.
  revert n. induction this as [|i this IH]; intros n Hbutton Hnone.
  { cbn. by rewrite (Hnone [] n). }
  destruct n as [data|tag classes children]; [done|].
  cbn [Dom.closest Dom.at_path] in *.
  destruct (children !! i) as [c|] eqn:Hc; [|done]. cbn in Hbutton.
  rewrite (IH c Hbutton).
  - by rewrite (Hnone [] (Dom.Element tag classes children) (prefix_nil _)).
  - intros q el Hpre Hel. apply (Hnone (i :: q) el); [by apply prefix_cons|].
    cbn. by rewrite Hc.
Qed.

Lemma at_path_app p q n :
  Dom.at_path (p ++ q) n = Dom.at_path p n ≫= Dom.at_path q.
Proof.
  revert n. induction p as [|i p IH]; intros n; [done|].
  destruct n as [data|tag classes children]; [done|].
  cbn [Dom.at_path app]. destruct (children !! i) as [c|]; [|done]. cbn. apply IH.
Qed.

(** ** The listener *)

Lemma vote_count_inv doc this vc el :
  vote_count doc this = inr (vc, el) →
  ∃ post post_el rel,
    Dom.closest "post" doc this = Some post
    ∧ Dom.at_path post doc = Some post_el
    ∧ Dom.query_selector "vote-count" post_el = Some rel
    ∧ Dom.at_path rel post_el = Some el
    ∧ vc = post ++ rel.
Proof.
  unfold vote_count.
  destruct (Dom.closest "post" doc this) as [post|]; [|done].
  destruct (Dom.at_path post doc) as [post_el|] eqn:Hpost; [|done]. cbn.
  destruct (Dom.query_selector "vote-count" post_el) as [rel|] eqn:Hrel; [|done]. cbn.
  destruct (Dom.at_path rel post_el) as [el'|] eqn:Hel; [|done]. cbn.
  intros [= <- <-]. by exists post, post_el, rel.
Qed.

Lemma vote_count_found doc this vc el :
  vote_count doc this = inr (vc, el) →
  Dom.at_path vc doc = Some el ∧ Dom.has_class "vote-count" el = true.
Proof.
  intros (post & post_el & rel & _ & Hpost & Hrel & Hel & ->)%vote_count_inv.
  split.
  - rewrite at_path_app, Hpost. done.
  - destruct (query_selector_sound _ _ _ Hrel) as (el' & Hel' & Hclass).
    congruence.
Qed.

(** A button that is not inside the count element resolves to the same
    count element after a vote has rewritten its text. *)
Lemma vote_count_after_vote doc this vc el s :
  vote_count doc this = inr (vc, el) →
  ¬ strictly_below vc this →
  vote_count (Dom.update vc (Dom.set_text_content s) doc) this =
    inr (vc, Dom.set_text_content s el).
Proof.
  intros (post & post_el & rel & Hclosest & Hpost & Hrel & Hel & ->)%vote_count_inv
         Hbelow.
  unfold vote_count.
  rewrite (closest_update _ (set_text_content_classes s)) by done.
  rewrite Hclosest, at_path_update_below, Hpost. cbn.
  rewrite (query_selector_update _ (set_text_content_classes s)) by done. cbn.
  by rewrite at_path_update, Hel.
Qed.

Lemma on_vote_click_unfold doc this button vc el :
  Dom.at_path this doc = Some button →
  vote_count doc this = inr (vc, el) →
  on_vote_click doc this =
    inr (match vote_delta button with
         | Some d =>
             Dom.update vc
               (Dom.set_text_content
                  (to_string (VNum (add (parseInt (Dom.text_content el)) d)))) doc
         | None => doc
         end).
Proof.
  intros Hbutton Hcount. unfold on_vote_click, vote_delta.
  rewrite Hbutton, Hcount. cbn.
  by destruct (Dom.has_class "upvote" button), (Dom.has_class "downvote" button).
Qed.

(** X14.  A click on a vote button whose count reads as the integer [n]
    (within the range of exact integers) rewrites the text of the count
    element to [n + 1] for an [upvote] button and to [n - 1] for a
    [downvote] button that is no [upvote] button, and the new text reads
    back as that number; a button with neither class leaves the document
    as it is. *)
Theorem vote_moves_count doc this button vc el n :
  Dom.at_path this doc = Some button →
  vote_count doc this = inr (vc, el) →
  parseInt (Dom.text_content el) = Int n →
  Z.abs n < 2 ^ 53 →
  match vote_delta button with
  | Some d =>
      ∃ doc', on_vote_click doc this = inr doc'
        ∧ Dom.text_content <$> Dom.at_path vc doc' = Some (pretty (n + d))
        ∧ parseInt (pretty (n + d)) = Int (n + d)
  | None => on_vote_click doc this = inr doc
  end.
Proof.
  intros Hbutton Hcount Hparse _.
  rewrite (on_vote_click_unfold doc this button vc el Hbutton Hcount).
  destruct (vote_count_found _ _ _ _ Hcount) as [Hel Hclass].
  destruct (vote_delta button) as [d|]; [|done].
  eexists. split; [done|]. rewrite Hparse. cbn [add to_string].
  rewrite at_path_update, Hel. cbn.
  split; [|apply (parseInt_to_string (n + d))].
  by rewrite (text_content_set _ _ _ Hclass).
Qed.

Lemma vote_moves_count_witness :
  ∃ doc', on_vote_click (sample_page "5" "-1") [1; 0; 0]%nat = inr doc'
    ∧ Dom.text_content <$> Dom.at_path [1; 0; 1]%nat doc' = Some "0"
    ∧ parseInt "0" = Int 0.
Proof.
  apply (vote_moves_count (sample_page "5" "-1") [1; 0; 0]%nat
           (Dom.Element "button" ["vote-btn"; "upvote"] [Dom.Text "+"])
           [1; 0; 1]%nat
           (Dom.Element "span" ["vote-count"] [Dom.Text "-1"]) (-1));
    reflexivity.
Defined.

(** X15.  A click changes nothing but the children of the count element
    it resolves to: every node that is neither inside the count element
    nor an ancestor of it is the same afterwards, in particular the
    counts of other posts, and every node not inside the count element
    keeps its classes. *)
Theorem vote_touches_only_the_count doc this button vc el doc' :
  Dom.at_path this doc = Some button →
  vote_count doc this = inr (vc, el) →
  on_vote_click doc this = inr doc' →
  (∀ q, ¬ vc `prefix_of` q → ¬ q `prefix_of` vc →
        Dom.at_path q doc' = Dom.at_path q doc)
  ∧ (∀ q cls, ¬ strictly_below vc q →
        Dom.has_class cls <$> Dom.at_path q doc' =
        Dom.has_class cls <$> Dom.at_path q doc).
Proof.
  intros Hbutton Hcount.
  rewrite (on_vote_click_unfold doc this button vc el Hbutton Hcount).
  intros [= <-]. destruct (vote_delta button) as [d|]; [|done].
  split.
  - intros q Hvq Hqv. by apply at_path_update_apart.
  - intros q cls Hbelow. apply classes_update; [|done].
    intros c n. apply set_text_content_classes.
Qed.

Lemma vote_touches_only_the_count_witness :
  (∀ q, ¬ [0; 0; 1]%nat `prefix_of` q → ¬ q `prefix_of` [0; 0; 1]%nat →
        Dom.at_path q (sample_page "6" "9") = Dom.at_path q (sample_page "5" "9"))
  ∧ (∀ q cls, ¬ strictly_below [0; 0; 1]%nat q →
        Dom.has_class cls <$> Dom.at_path q (sample_page "6" "9") =
        Dom.has_class cls <$> Dom.at_path q (sample_page "5" "9")).
Proof.
  apply (vote_touches_only_the_count (sample_page "5" "9") [0; 0; 0]%nat
           (Dom.Element "button" ["vote-btn"; "upvote"] [Dom.Text "+"])
           [0; 0; 1]%nat
           (Dom.Element "span" ["vote-count"] [Dom.Text "5"])
           (sample_page "6" "9"));
    reflexivity.
Defined.

Lemma update_at p g h n el :
  Dom.at_path p n = Some el → g el = h el → Dom.update p g n = Dom.update p h n.
Proof.
  revert n. induction p as [|i p IH]; intros n; [by intros [= ->]|].
  destruct n as [data|tag classes children]; [done|].
  cbn [Dom.at_path Dom.update]. intros Hel Heq. f_equal.
  destruct (children !! i) as [c|] eqn:Hc; [|done]. cbn in Hel.
  apply list_eq. intros k. destruct (decide (k = i)) as [->|Hk].
  - rewrite !list_lookup_alter_eq, Hc. cbn. f_equal. by apply IH.
  - by rewrite !list_lookup_alter_ne.
Qed.

Lemma update_id p n : Dom.update p id n = n.
Proof.
  revert n. induction p as [|i p IH]; intros n; [done|].
  destruct n as [data|tag classes children]; [done|].
  cbn [Dom.update]. f_equal. apply list_eq. intros k.
  destruct (decide (k = i)) as [->|Hk].
  - rewrite list_lookup_alter_eq. destruct (children !! i); [|done]. cbn. by rewrite IH.
  - by rewrite list_lookup_alter_ne.
Qed.

Lemma update_update p g h n :
  Dom.update p g (Dom.update p h n) = Dom.update p (g ∘ h) n.
Proof.
  revert n. induction p as [|i p IH]; intros n; [done|].
  destruct n as [data|tag classes children]; [done|].
  cbn [Dom.update]. f_equal. apply list_eq. intros k.
  destruct (decide (k = i)) as [->|Hk].
  - rewrite !list_lookup_alter_eq. destruct (children !! i); [|done]. cbn. by rewrite IH.
  - by rewrite !list_lookup_alter_ne.
Qed.

Lemma pretty_Z_nonempty (n : Z) : String.eqb (pretty n) "" = false.
Proof.
  destruct n as [|p|p]; [done| |done].
  change (pretty (Z.pos p)) with (pretty (N.pos p)).
  unfold pretty, pretty_N. rewrite decide_False by done.
  by destruct (pretty_N_go_head (N.pos p) "") as (d & t & _ & ->).
Qed.

Lemma button_after_vote doc this button vc s :
  Dom.at_path this doc = Some button →
  ¬ strictly_below vc this →
  ∃ button', Dom.at_path this (Dom.update vc (Dom.set_text_content s) doc) = Some button'
    ∧ vote_delta button' = vote_delta button.
Proof.
  intros Hbutton Hbelow.
  pose proof (λ cls, classes_update _ (set_text_content_classes s) cls vc this doc Hbelow)
    as Hcls.
  rewrite Hbutton in Hcls.
  destruct (Dom.at_path this (Dom.update vc _ doc)) as [button'|] eqn:Hb'.
  - exists button'. split; [done|]. unfold vote_delta.
    pose proof (Hcls "upvote") as [= ->]. by pose proof (Hcls "downvote") as [= ->].
  - by pose proof (Hcls "upvote").
Qed.

(** X16.  An upvote followed by a downvote in the same post brings the
    count back: when the count reads as the integer [n], the text after
    the two clicks is the decimal of [n], and when the count element held
    nothing but that decimal the document is again what it was. *)
Theorem upvote_then_downvote doc up down button_up button_down vc el n :
  Dom.at_path up doc = Some button_up →
  Dom.at_path down doc = Some button_down →
  vote_delta button_up = Some 1 →
  vote_delta button_down = Some (-1) →
  vote_count doc up = inr (vc, el) →
  vote_count doc down = inr (vc, el) →
  ¬ strictly_below vc down →
  parseInt (Dom.text_content el) = Int n →
  Z.abs n < 2 ^ 53 →
  ∃ doc1 doc2,
    on_vote_click doc up = inr doc1
    ∧ on_vote_click doc1 down = inr doc2
    ∧ Dom.text_content <$> Dom.at_path vc doc1 = Some (pretty (n + 1))
    ∧ Dom.text_content <$> Dom.at_path vc doc2 = Some (pretty n)
    ∧ (∀ tag classes, el = Dom.Element tag classes [Dom.Text (pretty n)] → doc2 = doc).
Proof.
  intros Hup Hdown Dup Ddown Cup Cdown Hbelow Hparse _.
  destruct (vote_count_found _ _ _ _ Cup) as [Hel Hclass].
  pose proof (on_vote_click_unfold doc up button_up vc el Hup Cup) as Hfirst.
  rewrite Dup, Hparse in Hfirst. cbn [add to_string] in Hfirst.
  set (doc1 := Dom.update vc (Dom.set_text_content (pretty (n + 1))) doc) in *.
  destruct (button_after_vote doc down button_down vc (pretty (n + 1)) Hdown Hbelow)
    as (button' & Hdown' & Ddown').
  pose proof (vote_count_after_vote doc down vc el (pretty (n + 1)) Cdown Hbelow)
    as Cdown'.
  pose proof (on_vote_click_unfold doc1 down button' vc _ Hdown' Cdown') as Hsecond.
  rewrite Ddown', Ddown, (text_content_set _ _ _ Hclass) in Hsecond.
  assert (Hback : parseInt (pretty (n + 1)) = Int (n + 1))
    by apply (parseInt_to_string (n + 1)).
  rewrite Hback in Hsecond.
  cbn [add to_string] in Hsecond.
  replace (n + 1 + -1) with n in Hsecond by lia.
  eexists _, _. split; [exact Hfirst|]. split; [exact Hsecond|].
  unfold doc1. rewrite update_update, !at_path_update, Hel. cbn.
  rewrite (text_content_set _ (Dom.set_text_content _ el) "vote-count")
    by (by rewrite set_text_content_classes).
  rewrite (text_content_set _ _ _ Hclass).
  split; [done|]. split; [done|].
  intros tag classes ->.
  rewrite (update_at vc _ id _ _ Hel); [apply update_id|].
  cbn. by rewrite pretty_Z_nonempty.
Qed.

Lemma upvote_then_downvote_witness :
  ∃ doc1 doc2,
    on_vote_click (sample_page "5" "9") [0; 0; 0]%nat = inr doc1
    ∧ on_vote_click doc1 [0; 0; 2]%nat = inr doc2
    ∧ Dom.text_content <$> Dom.at_path [0; 0; 1]%nat doc1 = Some "6"
    ∧ Dom.text_content <$> Dom.at_path [0; 0; 1]%nat doc2 = Some "5"
    ∧ (∀ tag classes,
         Dom.Element "span" ["vote-count"] [Dom.Text "5"] =
           Dom.Element tag classes [Dom.Text "5"] →
         doc2 = sample_page "5" "9").
Proof.
  apply (upvote_then_downvote (sample_page "5" "9") [0; 0; 0]%nat [0; 0; 2]%nat
           (Dom.Element "button" ["vote-btn"; "upvote"] [Dom.Text "+"])
           (Dom.Element "button" ["vote-btn"; "downvote"] [Dom.Text "-"])
           [0; 0; 1]%nat
           (Dom.Element "span" ["vote-count"] [Dom.Text "5"]) 5);
    try reflexivity.
  intros (i & rest & Heq). discriminate Heq.
Defined.

(** X17.  A count that does not start with a number is lost for good:
    when [parseInt] of the count text is NaN, a click on an upvote or
    downvote button writes [NaN] into the count element, and a further
    click leaves [NaN] there. *)
Theorem vote_on_count_without_number doc this button vc el d :
  Dom.at_path this doc = Some button →
  vote_count doc this = inr (vc, el) →
  vote_delta button = Some d →
  ¬ strictly_below vc this →
  parseInt (Dom.text_content el) = NaN →
  ∃ doc1 doc2,
    on_vote_click doc this = inr doc1
    ∧ Dom.text_content <$> Dom.at_path vc doc1 = Some "NaN"
    ∧ on_vote_click doc1 this = inr doc2
    ∧ Dom.text_content <$> Dom.at_path vc doc2 = Some "NaN".
Proof.
  intros Hbutton Hcount Hdelta Hbelow Hparse.
  destruct (vote_count_found _ _ _ _ Hcount) as [Hel Hclass].
  pose proof (on_vote_click_unfold doc this button vc el Hbutton Hcount) as Hfirst.
  rewrite Hdelta, Hparse in Hfirst. cbn [add to_string] in Hfirst.
  set (doc1 := Dom.update vc (Dom.set_text_content "NaN") doc) in *.
  destruct (button_after_vote doc this button vc "NaN" Hbutton Hbelow)
    as (button' & Hbutton' & Hdelta').
  pose proof (vote_count_after_vote doc this vc el "NaN" Hcount Hbelow) as Hcount'.
  pose proof (on_vote_click_unfold doc1 this button' vc _ Hbutton' Hcount') as Hsecond.
  rewrite Hdelta', Hdelta, (text_content_set _ _ _ Hclass) in Hsecond.
  change (parseInt "NaN") with NaN in Hsecond. cbn [add to_string] in Hsecond.
  eexists _, _. split; [exact Hfirst|].
  split; [|split; [exact Hsecond|]]; unfold doc1.
  - by rewrite at_path_update, Hel; cbn; rewrite (text_content_set _ _ _ Hclass).
  - rewrite update_update, at_path_update, Hel. cbn.
    by rewrite (text_content_set _ (Dom.set_text_content _ el) "vote-count")
      by (by rewrite set_text_content_classes).
Qed.

Lemma vote_on_count_without_number_witness :
  ∃ doc1 doc2,
    on_vote_click (sample_page "" "9") [0; 0; 2]%nat = inr doc1
    ∧ Dom.text_content <$> Dom.at_path [0; 0; 1]%nat doc1 = Some "NaN"
    ∧ on_vote_click doc1 [0; 0; 2]%nat = inr doc2
    ∧ Dom.text_content <$> Dom.at_path [0; 0; 1]%nat doc2 = Some "NaN".
Proof.
  apply (vote_on_count_without_number (sample_page "" "9") [0; 0; 2]%nat
           (Dom.Element "button" ["vote-btn"; "downvote"] [Dom.Text "-"])
           [0; 0; 1]%nat
           (Dom.Element "span" ["vote-count"] [Dom.Text ""]) (-1));
    try reflexivity.
  intros (i & rest & Heq). discriminate Heq.
Defined.

(** X18.  A vote button that has no [.post] element above it makes its
    listener throw, whatever its classes: [closest] answers [null] and
    the TypeError is that of reading [querySelector] from it. *)
Theorem vote_outside_a_post doc this button :
  Dom.at_path this doc = Some button →
  (∀ q el, q `prefix_of` this → Dom.at_path q doc = Some el →
           Dom.has_class "post" el = false) →
  on_vote_click doc this =
    inl (TypeError "Cannot read properties of null (reading 'querySelector')").
Proof.
  intros Hbutton Hnone. unfold on_vote_click, vote_count.
  by rewrite Hbutton, (closest_complete "post" doc this button Hbutton Hnone).
Qed.

Lemma vote_outside_a_post_witness :
  on_vote_click
    (Dom.Element "div" ["posts-container"]
       [Dom.Element "button" ["vote-btn"; "upvote"] [Dom.Text "+"];
        sample_post "5"]) [0]%nat =
    inl (TypeError "Cannot read properties of null (reading 'querySelector')").
Proof.
  apply (vote_outside_a_post _ [0]%nat
           (Dom.Element "button" ["vote-btn"; "upvote"] [Dom.Text "+"]));
    [reflexivity|].
  intros q el Hpre.
  destruct q as [|i [|j q]].
  - by intros [= <-].
  - apply prefix_cons_inv_1 in Hpre as ->. by intros [= <-].
  - apply prefix_cons_inv_2 in Hpre. by apply prefix_nil_not in Hpre.
Defined.

(** X19.  A vote button whose nearest [.post] holds no [.vote-count]
    element makes its listener throw, whatever its classes and whatever
    lies outside that post: [querySelector] answers [null] and the
    TypeError is that of reading [textContent] from it. *)
Theorem vote_in_a_post_without_count doc this button post post_el :
  Dom.at_path this doc = Some button →
  Dom.closest "post" doc this = Some post →
  Dom.at_path post doc = Some post_el →
  (∀ i rest el, Dom.at_path (i :: rest) post_el = Some el →
                Dom.has_class "vote-count" el = false) →
  on_vote_click doc this =
    inl (TypeError "Cannot read properties of null (reading 'textContent')").
Proof.
  intros Hbutton Hclosest Hpost Hnone. unfold on_vote_click, vote_count.
  rewrite Hbutton, Hclosest, Hpost. cbn.
  by rewrite (query_selector_complete "vote-count" post_el Hnone).
Qed.

Lemma vote_in_a_post_without_count_witness :
  on_vote_click
    (Dom.Element "div" ["post"]
       [Dom.Element "span" ["vote-count"] [Dom.Text "5"];
        Dom.Element "div" ["post"]
          [Dom.Element "button" ["vote-btn"; "upvote"] []]]) [1; 0]%nat =
    inl (TypeError "Cannot read properties of null (reading 'textContent')").
Proof.
  apply (vote_in_a_post_without_count _ [1; 0]%nat
           (Dom.Element "button" ["vote-btn"; "upvote"] []) [1]%nat
           (Dom.Element "div" ["post"]
              [Dom.Element "button" ["vote-btn"; "upvote"] []]));
    [reflexivity | reflexivity | reflexivity |].
  intros [|i] [|j rest] el; try discriminate.
  by intros [= <-].
Defined.

Lemma parseInt_zero_prefix rest :
  rest = "" ∨ (∃ c r, rest = String c r ∧ digit_value c = None) →
  parseInt ("0" +:+ rest) = Int 0.
Proof.
  intros [->|(c & r & -> & Hc)]; [done|].
  change ("0" +:+ String c r) with (String "0" (String c r)).
  destruct c as [[] [] [] [] [] [] [] []]; try discriminate Hc; reflexivity.
Qed.

Lemma parseInt_integer_prefix n rest :
  rest = "" ∨ (∃ c r, rest = String c r ∧ digit_value c = None) →
  parseInt (pretty n +:+ rest) = Int n.
Proof.
  intros Hrest. destruct n as [|p|p].
  - by apply parseInt_zero_prefix.
  - by destruct (parseInt_positive p rest Hrest) as [? _].
  - destruct (parseInt_positive p rest Hrest) as [_ Hminus].
    change (pretty (Z.neg p)) with ("-" +:+ pretty (N.pos p)).
    by rewrite string_app_assoc.
Qed.

(** X20.  A vote keeps only the number of the count text: when the text
    is the decimal of an integer [n] followed by anything that does not
    begin with a digit or a letter (a unit after a space, for one), a
    click on an upvote or downvote button replaces the whole text by the
    decimal of the new count, and the suffix is gone. *)
Theorem vote_drops_suffix doc this button vc el n rest d :
  Dom.at_path this doc = Some button →
  vote_count doc this = inr (vc, el) →
  vote_delta button = Some d →
  Dom.text_content el = pretty n +:+ rest →
  rest = "" ∨ (∃ c r, rest = String c r ∧ digit_value c = None) →
  Z.abs n < 2 ^ 53 →
  ∃ doc', on_vote_click doc this = inr doc'
    ∧ Dom.text_content <$> Dom.at_path vc doc' = Some (pretty (n + d)).
Proof.
  intros Hbutton Hcount Hdelta Htext Hrest _.
  destruct (vote_count_found _ _ _ _ Hcount) as [Hel Hclass].
  rewrite (on_vote_click_unfold doc this button vc el Hbutton Hcount).
  rewrite Hdelta, Htext, (parseInt_integer_prefix n rest Hrest).
  eexists. split; [done|]. cbn [add to_string].
  by rewrite at_path_update, Hel; cbn; rewrite (text_content_set _ _ _ Hclass).
Qed.

Lemma vote_drops_suffix_witness :
  ∃ doc', on_vote_click (sample_page "12 votes" "9") [0; 0; 0]%nat = inr doc'
    ∧ Dom.text_content <$> Dom.at_path [0; 0; 1]%nat doc' = Some "13".
Proof.
  apply (vote_drops_suffix (sample_page "12 votes" "9") [0; 0; 0]%nat
           (Dom.Element "button" ["vote-btn"; "upvote"] [Dom.Text "+"])
           [0; 0; 1]%nat
           (Dom.Element "span" ["vote-count"] [Dom.Text "12 votes"])
           12 " votes" 1);
    try reflexivity.
  right. exists " "%char, "votes". split; reflexivity.
Defined.
